(** * Security-Validator: cookie and HSTS header analyzers

    A shallow embedding of [validators/cookie-checker.js] ([checkCookies])
    and of the HSTS checker ([checkHSTS]), followed by the properties of
    the two analyzers.

    Conventions of the embedding.
    - Header values reach the analyzers through Node's HTTP parser, which
      decodes them as Latin-1: every character is one code unit below 256.
      A JavaScript string is therefore a [string] of 8-bit [ascii]
      characters, and [length] is the JavaScript [length].
    - A JavaScript number is an IEEE double.  The only numbers the
      analyzers compute are array lengths, [parseInt] of a run of decimal
      digits and [Math.floor] of its quotient by 86400: non-negative
      integer-valued doubles and [Infinity], the type [jsnum].
    - [await axios.get] either yields a response or throws; the enclosing
      [try]/[catch] is the [try_catch] of a small exception monad.
    - The domain and the error messages are only compared with ASCII
      prefixes, concatenated and echoed; they are [string]s as well. *)

From Stdlib Require Import Bool Arith ZArith NArith Lia List Permutation.
From Stdlib Require Import Ascii String DecimalString DecimalPos DecimalN.
Import ListNotations.

Local Open Scope list_scope.
Local Open Scope string_scope.

(** ** JavaScript built-ins used by the analyzers *)

Module JS.

(** *** Completions: a value, or a thrown [Error] with its [message] *)

Inductive completion (A : Type) : Type :=
| Normal (value : A)
| Throw (message : string).

Arguments Normal {A} value.
Arguments Throw {A} message.

Definition bind {A B : Type} (c : completion A) (k : A -> completion B)
  : completion B :=
  match c with
  | Normal a => k a
  | Throw m => Throw m
  end.

(** [try { body } catch (error) { handler(error.message) }] where both
    blocks end in [return]. *)
Definition try_catch {A : Type} (body : completion A) (handler : string -> A)
  : A :=
  match body with
  | Normal a => a
  | Throw m => handler m
  end.

(** *** Characters *)

(** WhiteSpace and LineTerminator code units below 256: TAB, LF, VT, FF,
    CR, SP and NBSP; these are what [String.prototype.trim] strips. *)
Definition isWhiteSpace (c : ascii) : bool :=
  let n := N_of_ascii c in
  ((9 <=? n) && (n <=? 13) || (n =? 32) || (n =? 160))%N.

(** Latin-1 letters with a lower-case form: A-Z and the accented capitals
    U+00C0-U+00DE without the multiplication sign U+00D7. *)
Definition isUpper (c : ascii) : bool :=
  let n := N_of_ascii c in
  ((65 <=? n) && (n <=? 90) || (192 <=? n) && (n <=? 222) && negb (n =? 215))%N.

Definition toLowerCase_char (c : ascii) : ascii :=
  if isUpper c then ascii_of_N (N_of_ascii c + 32) else c.

Definition isDigit (c : ascii) : bool :=
  let n := N_of_ascii c in ((48 <=? n) && (n <=? 57))%N.

(** *** Strings *)

Fixpoint toLowerCase (s : string) : string :=
  match s with
  | EmptyString => EmptyString
  | String c s' => String (toLowerCase_char c) (toLowerCase s')
  end.

Fixpoint trimStart (s : string) : string :=
  match s with
  | EmptyString => EmptyString
  | String c s' => if isWhiteSpace c then trimStart s' else s
  end.

Fixpoint trimEnd (s : string) : string :=
  match s with
  | EmptyString => EmptyString
  | String c s' =>
      match trimEnd s' with
      | EmptyString => if isWhiteSpace c then EmptyString else String c EmptyString
      | t => String c t
      end
  end.

Definition trim (s : string) : string := trimEnd (trimStart s).

(** [s.split(sep)] for a one-character separator: always at least one
    segment; the empty string splits into one empty segment. *)
Fixpoint split (sep : ascii) (s : string) : list string :=
  match s with
  | EmptyString => [EmptyString]
  | String c s' =>
      if Ascii.eqb c sep then EmptyString :: split sep s'
      else match split sep s' with
           | seg :: segs => String c seg :: segs
           | [] => [String c EmptyString]
           end
  end.

(** [s.startsWith(p)] *)
Definition startsWith (p s : string) : bool := String.prefix p s.

(** [s.substring(start, end)]: both indices are clamped to the length and
    swapped when [start > end]. *)
Definition substring (s : string) (i j : nat) : string :=
  let lo := Nat.min (Nat.min i j) (String.length s) in
  let hi := Nat.min (Nat.max i j) (String.length s) in
  String.substring lo (hi - lo) s.

(** *** Arrays *)

Definition some {A : Type} (p : A -> bool) (l : list A) : bool := existsb p l.

Definition includes (x : string) (l : list string) : bool :=
  existsb (String.eqb x) l.

Definition push {A : Type} (l : list A) (x : A) : list A := (l ++ [x])%list.

(** [l.forEach((x, index) => ...)] where the callback updates captured
    variables: the captured state [St] is threaded through the calls. *)
Fixpoint forEach_from {A St : Type} (f : A -> nat -> St -> St)
         (l : list A) (index : nat) (st : St) : St :=
  match l with
  | [] => st
  | x :: l' => forEach_from f l' (S index) (f x index st)
  end.

Definition forEach {A St : Type} (f : A -> nat -> St -> St) (l : list A)
           (st : St) : St := forEach_from f l 0 st.

(** First element of an array destructuring [const [x] = l] over an array
    of strings; [undefined] cannot arise for the results of [split]. *)
Definition first (l : list string) : string :=
  match l with
  | x :: _ => x
  | [] => EmptyString
  end.

(** *** Numbers *)

(** The doubles the analyzers compute: [Num z] is the double whose value
    is the integer [z] (with [0 <= z]), [Infinity] is [+Infinity]. *)
Inductive jsnum : Type :=
| Num (z : Z)
| Infinity.

Definition jsnum_eqb (x y : jsnum) : bool :=
  match x, y with
  | Num a, Num b => (a =? b)%Z
  | Infinity, Infinity => true
  | _, _ => false
  end.

(** [x === 0] and [x < y] on these doubles. *)
Definition strict_equals_Z (x : jsnum) (k : Z) : bool := jsnum_eqb x (Num k).

Definition less_than_Z (x : jsnum) (k : Z) : bool :=
  match x with
  | Num z => (z <? k)%Z
  | Infinity => false
  end.

Local Open Scope Z_scope.

(** The double nearest to a non-negative integer [v] (ties to even, 53-bit
    significand, overflow to [Infinity] from [2^1024 - 2^970] on). *)
Definition round_to_double (v : Z) : jsnum :=
  if v <? 2 ^ 53 then Num v
  else
    let e := Z.log2 v - 52 in
    let m := v / 2 ^ e in
    let r := v mod 2 ^ e in
    let half := 2 ^ (e - 1) in
    let m' := if (half <? r) || ((half =? r) && Z.odd m) then m + 1 else m in
    if m' * 2 ^ e <? 2 ^ 1024 then Num (m' * 2 ^ e) else Infinity.

Definition digit_value (c : ascii) : Z := Z.of_N (N_of_ascii c) - 48.

Fixpoint decimal_value (acc : Z) (s : string) : Z :=
  match s with
  | EmptyString => acc
  | String c s' => decimal_value (10 * acc + digit_value c) s'
  end.

(** [parseInt(s)] for [s] a non-empty run of decimal digits, which is what
    group 1 of [/max-age=(\d+)/] captures: no sign, no radix prefix, no
    trailing characters.  The mathematical value is rounded to a double
    as V8 does. *)
Definition parseInt (s : string) : jsnum := round_to_double (decimal_value 0 s).

(** [Math.floor(x / d)] for an integer [d > 0]: the quotient is first
    rounded to the nearest double [m' * 2^e], which is then floored. *)
Definition floor_div (x : jsnum) (d : Z) : jsnum :=
  match x with
  | Infinity => Infinity
  | Num z =>
      if z =? 0 then Num 0
      else
        let l := Z.log2 z - Z.log2 d in
        let ex := if (if 0 <=? l then d * 2 ^ l <=? z else d <=? z * 2 ^ (- l))
                  then l else l - 1 in
        let e := ex - 52 in
        let p := if e <? 0 then z * 2 ^ (- e) else z in
        let q := if e <? 0 then d else d * 2 ^ e in
        let m := p / q in
        let r := p mod q in
        let m' := if (q <? 2 * r) || ((q =? 2 * r) && Z.odd m) then m + 1 else m in
        if e <? 0 then Num (m' / 2 ^ (- e)) else Num (m' * 2 ^ e)
  end.

(** Decimal digits of a non-negative integer. *)
Definition decimal (z : Z) : string :=
  NilEmpty.string_of_uint (N.to_uint (Z.to_N z)).

Fixpoint zeros (n : nat) : string :=
  match n with
  | O => EmptyString
  | S n' => String "0" (zeros n')
  end.

(** Number::toString picks the shortest digit string [s] (of [k] digits)
    and the exponent [n] with [round_to_double (s * 10^(n-k)) = x], the one
    closest to [x] if several have [k] digits.  [candidates z k] lists the
    pairs [(s, n)] with [k] digits that denote [Num z]. *)
Definition candidates (z k : Z) : list (Z * Z) :=
  let nd := Z.of_nat (String.length (decimal z)) in
  filter (fun sn : Z * Z =>
            let (s, n) := sn in
            (10 ^ (k - 1) <=? s) && (s <? 10 ^ k) && (k <=? n)
            && jsnum_eqb (round_to_double (s * 10 ^ (n - k))) (Num z))
         (flat_map (fun n => let q := z / 10 ^ (n - k) in [(q, n); (q + 1, n)])
                   [nd; nd + 1]).

Definition closest (z k : Z) (l : list (Z * Z)) : option (Z * Z) :=
  let dist (sn : Z * Z) := Z.abs (fst sn * 10 ^ (snd sn - k) - z) in
  fold_left (fun best sn =>
               match best with
               | None => Some sn
               | Some b =>
                   if (dist sn <? dist b) || ((dist sn =? dist b) && Z.even (fst sn))
                   then Some sn else Some b
               end) l None.

Fixpoint shortest (z : Z) (k : Z) (fuel : nat) : option (Z * Z * Z) :=
  match fuel with
  | O => None
  | S fuel' =>
      match closest z k (candidates z k) with
      | Some (s, n) => Some (s, k, n)
      | None => shortest z (k + 1) fuel'
      end
  end.

(** Number::toString(x), radix 10.  Below [2^53] every integer is a double
    and the shortest digit string is its decimal expansion; from [10^21]
    on the result is in exponent notation. *)
Definition Number_toString (x : jsnum) : string :=
  match x with
  | Infinity => "Infinity"
  | Num z =>
      if z <? 2 ^ 53 then decimal z
      else
        match shortest z 1 17 with
        | Some (s, k, n) =>
            if n <=? 21 then (decimal s ++ zeros (Z.to_nat (n - k)))%string
            else
              match decimal s with
              | String d EmptyString =>
                  (String d "e+" ++ decimal (n - 1))%string
              | String d ds =>
                  (String d (String "." ds) ++ "e+" ++ decimal (n - 1))%string
              | EmptyString => EmptyString
              end
        | None => EmptyString
        end
  end.

Local Close Scope Z_scope.

(** *** Regular expressions with the [i] flag (no [u] flag) *)

(** Canonicalize of the non-Unicode case-insensitive match: the upper-case
    form of the code unit when that is a single code unit.  Below 256:
    a-z and U+00E0-U+00FE (without the division sign U+00F7) go 32 down,
    y-diaeresis goes to U+0178, the micro sign to U+039C, and sharp s
    (whose upper case is two letters) stays. *)
Definition Canonicalize (c : ascii) : N :=
  let n := N_of_ascii c in
  (if (97 <=? n) && (n <=? 122) || (224 <=? n) && (n <=? 254) && negb (n =? 247)
   then n - 32
   else if n =? 255 then 376
   else if n =? 181 then 924
   else n)%N.

(** A literal pattern matched at the start of [s]: the rest of [s] after
    the match. *)
Fixpoint match_literal (pat s : string) : option string :=
  match pat with
  | EmptyString => Some s
  | String p pat' =>
      match s with
      | EmptyString => None
      | String c s' =>
          if (Canonicalize p =? Canonicalize c)%N then match_literal pat' s'
          else None
      end
  end.

(** The greedy [\d*] at the start of [s]. *)
Fixpoint digits (s : string) : string :=
  match s with
  | EmptyString => EmptyString
  | String c s' => if isDigit c then String c (digits s') else EmptyString
  end.

(** A pattern is tried at every start position from the left; the first
    position where it matches wins. *)
Fixpoint search {A : Type} (at_start : string -> option A) (s : string)
  : option A :=
  match at_start s with
  | Some r => Some r
  | None =>
      match s with
      | EmptyString => None
      | String _ s' => search at_start s'
      end
  end.

(** [/lit/i.test(s)] for a literal pattern. *)
Definition test_literal (lit s : string) : bool :=
  match search (match_literal lit) s with
  | Some _ => true
  | None => false
  end.

End JS.

Import JS.

(** ** The HTTP collaborator *)

(** The response headers as axios exposes them under Node: [set-cookie] is
    an array with one string per header occurrence, any other header is
    one string; a header that was not sent is [undefined]. *)
Record Headers : Type := {
  set_cookie : option (list string);
  strict_transport_security : option string;
  other_headers : list (string * string)
}.

Record Response : Type := { headers : Headers }.

(** [if (!url.startsWith('http://') && !url.startsWith('https://'))
      url = 'https://' + url] *)
Definition normalize_url (domain : string) : string :=
  if negb (startsWith "http://" domain) && negb (startsWith "https://" domain)
  then "https://" ++ domain
  else domain.

(** [x || y] on strings: the empty string is falsy. *)
Definition or_string (x y : string) : string :=
  if String.eqb x EmptyString then y else x.

(** ** cookie-checker.js *)

Module CookieChecker.

Record CookieRecord : Type := {
  cookie_name : string;
  secure : bool;
  httpOnly : bool;
  sameSite : bool
}.

Record CookieIssue : Type := {
  name : string;
  issues : list string;
  raw : string
}.

(** The object [checkCookies] resolves to; a field that a path does not
    set is [None]. *)
Record Finding : Type := {
  success : bool;
  domain : string;
  error : option string;
  cookieCount : option nat;
  cookies : option (list CookieRecord);
  finding_issues : option (list CookieIssue);
  issueCount : option nat;
  severity : string;
  status : string;
  message : string
}.

Definition hasSecure (cookieParts : list string) : bool :=
  some (fun part => String.eqb (toLowerCase part) "secure") cookieParts.

Definition hasHttpOnly (cookieParts : list string) : bool :=
  some (fun part => String.eqb (toLowerCase part) "httponly") cookieParts.

Definition hasSameSite (cookieParts : list string) : bool :=
  some (fun part => startsWith "samesite" (toLowerCase part)) cookieParts.

(** [cookieStr.split(';').map(part => part.trim())] *)
Definition cookieParts (cookieStr : string) : list string :=
  map trim (split ";" cookieStr).

(** [name || `Cookie ${index + 1}`] *)
Definition display_name (cookieStr : string) (index : nat) : string :=
  let nameValue := first (cookieParts cookieStr) in
  let name := first (split "=" nameValue) in
  or_string name ("Cookie " ++ Number_toString (Num (Z.of_nat index + 1))).

Definition cookieIssues (cookieStr : string) : list string :=
  let parts := cookieParts cookieStr in
  let cookieIssues := [] in
  let cookieIssues :=
    if negb (hasSecure parts) then push cookieIssues "Missing Secure flag"
    else cookieIssues in
  let cookieIssues :=
    if negb (hasHttpOnly parts) then push cookieIssues "Missing HttpOnly flag"
    else cookieIssues in
  let cookieIssues :=
    if negb (hasSameSite parts) then push cookieIssues "Missing SameSite attribute"
    else cookieIssues in
  cookieIssues.

(** [cookieStr.substring(0, 100) + (cookieStr.length > 100 ? '...' : '')] *)
Definition raw_of (cookieStr : string) : string :=
  substring cookieStr 0 100
  ++ (if (100 <? String.length cookieStr)%nat then "..." else EmptyString).

(** The body of the [forEach] callback; the captured arrays [issues] and
    [cookies] are the state. *)
Definition each_cookie (cookieStr : string) (index : nat)
           (st : list CookieIssue * list CookieRecord)
  : list CookieIssue * list CookieRecord :=
  let (issues, cookies) := st in
  let parts := cookieParts cookieStr in
  let cookieIssues := cookieIssues cookieStr in
  let issues :=
    if (0 <? List.length cookieIssues)%nat
    then push issues {| name := display_name cookieStr index;
                        issues := cookieIssues;
                        raw := raw_of cookieStr |}
    else issues in
  let cookies :=
    push cookies {| cookie_name := display_name cookieStr index;
                    secure := hasSecure parts;
                    httpOnly := hasHttpOnly parts;
                    sameSite := hasSameSite parts |} in
  (issues, cookies).

(** What follows [await axios.get] inside the [try] block. *)
Definition analyze (domain : string) (response : Response) : Finding :=
  let cookieHeaders :=
    match set_cookie (headers response) with
    | Some l => l
    | None => []
    end in
  if (List.length cookieHeaders =? 0)%nat then
    {| success := true; domain := domain; error := None;
       cookieCount := Some 0; cookies := None;
       finding_issues := Some []; issueCount := None;
       severity := "ok"; status := "No Cookies Set";
       message := "No cookies found on this domain" |}
  else
    let (issues, cookies) := forEach each_cookie cookieHeaders ([], []) in
    let (severity, status) :=
      let (severity, status) := ("ok", "All Cookies Secure") in
      if (0 <? List.length issues)%nat then
        let (severity, status) := ("warning", "Security Issues Found") in
        let noSecureCookies :=
          filter (fun i => includes "Missing Secure flag" i.(CookieChecker.issues))
                 issues in
        if (List.length noSecureCookies =? List.length cookieHeaders)%nat
        then ("critical", "Critical Security Issues")
        else (severity, status)
      else (severity, status) in
    let count (n : nat) := Number_toString (Num (Z.of_nat n)) in
    {| success := true; domain := domain; error := None;
       cookieCount := Some (List.length cookieHeaders);
       cookies := Some cookies;
       finding_issues := Some issues;
       issueCount := Some (List.length issues);
       severity := severity; status := status;
       message :=
         if (0 <? List.length issues)%nat
         then "Found " ++ count (List.length issues)
              ++ " cookie(s) with security issues out of "
              ++ count (List.length cookieHeaders) ++ " total"
         else "All " ++ count (List.length cookieHeaders)
              ++ " cookies are properly secured" |}.

Definition failure (domain : string) (error_message : string) : Finding :=
  {| success := false; domain := domain; error := Some error_message;
     cookieCount := None; cookies := None; finding_issues := None;
     issueCount := None;
     severity := "error"; status := "Error";
     message := "Failed to check cookies: " ++ error_message |}.

Section Fetch.

(** [axios.get(url, config)] with the fixed configuration of the source
    (five redirects, ten seconds, every status accepted). *)
Variable axios_get : string -> completion Response.

Definition checkCookies (domain : string) : Finding :=
  try_catch
    (bind (axios_get (normalize_url domain))
          (fun response => Normal (analyze domain response)))
    (failure domain).

End Fetch.

End CookieChecker.


(** ** The HSTS checker *)

Module HstsChecker.

Record Details : Type := {
  header : option string;
  maxAge : option jsnum;
  maxAgeDays : option jsnum;
  includeSubDomains : bool;
  preload : bool;
  issues : option (list string)
}.

(** The object [checkHSTS] resolves to; [null] and fields that a path
    does not set are [None]. *)
Record Finding : Type := {
  success : bool;
  domain : string;
  enabled : bool;
  error : option string;
  severity : string;
  status : string;
  message : string;
  details : Details
}.

(** [/max-age=(\d+)/i] at the start of [s]: group 1. *)
Definition max_age_at (s : string) : option string :=
  match match_literal "max-age=" s with
  | Some rest =>
      match digits rest with
      | EmptyString => None
      | ds => Some ds
      end
  | None => None
  end.

(** [hstsHeader.match(/max-age=(\d+)/i)], reduced to group 1. *)
Definition maxAgeMatch (hstsHeader : string) : option string :=
  search max_age_at hstsHeader.

(** [maxAgeMatch ? parseInt(maxAgeMatch[1]) : 0] *)
Definition parse_maxAge (hstsHeader : string) : jsnum :=
  match maxAgeMatch hstsHeader with
  | Some group1 => parseInt group1
  | None => Num 0
  end.

Definition parse_includeSubDomains (hstsHeader : string) : bool :=
  test_literal "includeSubDomains" hstsHeader.

Definition parse_preload (hstsHeader : string) : bool :=
  test_literal "preload" hstsHeader.

(** The variables [severity], [status] and [issues] of the source. *)
Definition verdict : Type := (string * string * list string)%type.

(** [if (maxAge === 0) ... else if (maxAge < 31536000) ...] *)
Definition max_age_tier (maxAge maxAgeDays : jsnum) : verdict :=
  let '(severity, status, issues) := ("ok", "HSTS Enabled", @nil string) in
  if strict_equals_Z maxAge 0 then
    ("critical", "HSTS Misconfigured",
     push issues "max-age is 0 (effectively disabled)")
  else if less_than_Z maxAge 31536000 then
    ("warning", "HSTS Weak Configuration",
     push issues ("max-age is " ++ Number_toString maxAgeDays
                  ++ " days (recommended: at least 365 days)")%string)
  else (severity, status, issues).

(** [if (!includeSubDomains) { if (severity === 'ok') severity = 'warning';
      issues.push(...) }] *)
Definition includeSubDomains_rule (includeSubDomains : bool) (v : verdict)
  : verdict :=
  let '(severity, status, issues) := v in
  if negb includeSubDomains then
    ((if String.eqb severity "ok" then "warning" else severity),
     status,
     push issues "includeSubDomains directive not set")
  else (severity, status, issues).

Definition not_enabled (domain : string) : Finding :=
  {| success := true; domain := domain; enabled := false; error := None;
     severity := "critical"; status := "HSTS Not Enabled";
     message := "HTTP Strict Transport Security policy is not enabled. "
                ++ "This allows potential man-in-the-middle attacks.";
     details := {| header := None; maxAge := None; maxAgeDays := None;
                   includeSubDomains := false; preload := false;
                   issues := None |} |}.

(** The part of the [try] block after the [!hstsHeader] test. *)
Definition evaluate (domain hstsHeader : string) : Finding :=
  let maxAge := parse_maxAge hstsHeader in
  let includeSubDomains := parse_includeSubDomains hstsHeader in
  let preload := parse_preload hstsHeader in
  let maxAgeDays := floor_div maxAge 86400 in
  let '(severity, status, issues) :=
    includeSubDomains_rule includeSubDomains (max_age_tier maxAge maxAgeDays) in
  {| success := true; domain := domain; enabled := true; error := None;
     severity := severity; status := status;
     message :=
       if (0 <? List.length issues)%nat
       then "HSTS is enabled but has "
            ++ Number_toString (Num (Z.of_nat (List.length issues)))
            ++ " issue(s)"
       else "HSTS is properly configured (max-age: "
            ++ Number_toString maxAgeDays ++ " days)";
     details := {| header := Some hstsHeader; maxAge := Some maxAge;
                   maxAgeDays := Some maxAgeDays;
                   includeSubDomains := includeSubDomains;
                   preload := preload; issues := Some issues |} |}.

(** What follows [await axios.get] inside the [try] block.  [!hstsHeader]
    holds for [undefined] and for the empty string. *)
Definition analyze (domain : string) (response : Response) : Finding :=
  match strict_transport_security (headers response) with
  | None => not_enabled domain
  | Some hstsHeader =>
      if String.eqb hstsHeader EmptyString then not_enabled domain
      else evaluate domain hstsHeader
  end.

Definition failure (domain : string) (error_message : string) : Finding :=
  {| success := false; domain := domain; enabled := false;
     error := Some error_message;
     severity := "error"; status := "Error";
     message := "Failed to check HSTS: " ++ error_message;
     details := {| header := None; maxAge := None; maxAgeDays := None;
                   includeSubDomains := false; preload := false;
                   issues := None |} |}.

Section Fetch.

Variable axios_get : string -> completion Response.

Definition checkHSTS (domain : string) : Finding :=
  try_catch
    (bind (axios_get (normalize_url domain))
          (fun response => Normal (analyze domain response)))
    (failure domain).

End Fetch.

End HstsChecker.

(** ** Specification-side definitions *)

(** The vocabulary of the properties: comparison up to case, occurrences
    of a directive, what the loops of the analyzers build, and sample
    collaborators. *)

Module Spec.

(** Equality up to the case of the ASCII letters A-Z. *)
Definition ci_char (c d : ascii) : bool :=
  Ascii.eqb c d
  || (let n := N_of_ascii c in
      let m := N_of_ascii d in
      ((65 <=? n) && (n <=? 90) && (m =? n + 32)
       || (65 <=? m) && (m <=? 90) && (n =? m + 32))%N).

Fixpoint ci_equal (s t : string) : bool :=
  match s, t with
  | EmptyString, EmptyString => true
  | String c s', String d t' => ci_char c d && ci_equal s' t'
  | _, _ => false
  end.

(** [t] begins with [p], up to the case of ASCII letters. *)
Fixpoint ci_prefix (p t : string) : bool :=
  match p, t with
  | EmptyString, _ => true
  | String c p', String d t' => ci_char d c && ci_prefix p' t'
  | String _ _, EmptyString => false
  end.

Fixpoint join (sep : ascii) (segs : list string) : string :=
  match segs with
  | [] => EmptyString
  | [seg] => seg
  | seg :: segs' => seg ++ String sep (join sep segs')
  end.

Fixpoint has_char (c : ascii) (s : string) : bool :=
  match s with
  | EmptyString => false
  | String d s' => Ascii.eqb c d || has_char c s'
  end.

Fixpoint all_chars (p : ascii -> bool) (s : string) : bool :=
  match s with
  | EmptyString => true
  | String c s' => p c && all_chars p s'
  end.

Definition starts_with_char (p : ascii -> bool) (s : string) : bool :=
  match s with
  | EmptyString => false
  | String c _ => p c
  end.

(** [needle] occurs in [hay]. *)
Definition contains (needle hay : string) : Prop :=
  exists before after, hay = before ++ needle ++ after.

(** The issue entries and the cookie records of a list of [Set-Cookie]
    values, the first of which has index [index]. *)
Fixpoint issue_entries (index : nat) (cookieHeaders : list string)
  : list CookieChecker.CookieIssue :=
  match cookieHeaders with
  | [] => []
  | cookieStr :: rest =>
      match CookieChecker.cookieIssues cookieStr with
      | [] => issue_entries (S index) rest
      | missing =>
          {| CookieChecker.name := CookieChecker.display_name cookieStr index;
             CookieChecker.issues := missing;
             CookieChecker.raw := CookieChecker.raw_of cookieStr |}
          :: issue_entries (S index) rest
      end
  end.

Fixpoint cookie_records (index : nat) (cookieHeaders : list string)
  : list CookieChecker.CookieRecord :=
  match cookieHeaders with
  | [] => []
  | cookieStr :: rest =>
      let parts := CookieChecker.cookieParts cookieStr in
      {| CookieChecker.cookie_name := CookieChecker.display_name cookieStr index;
         CookieChecker.secure := CookieChecker.hasSecure parts;
         CookieChecker.httpOnly := CookieChecker.hasHttpOnly parts;
         CookieChecker.sameSite := CookieChecker.hasSameSite parts |}
      :: cookie_records (S index) rest
  end.

(** The three attribute flags of one [Set-Cookie] value, as the analyzer
    computes them. *)
Definition lacks_secure (cookieStr : string) : bool :=
  negb (CookieChecker.hasSecure (CookieChecker.cookieParts cookieStr)).

Definition fully_attributed (cookieStr : string) : bool :=
  let parts := CookieChecker.cookieParts cookieStr in
  CookieChecker.hasSecure parts && CookieChecker.hasHttpOnly parts
  && CookieChecker.hasSameSite parts.

(** The test of [issues.filter(i => i.issues.includes('Missing Secure flag'))]. *)
Definition missing_secure (i : CookieChecker.CookieIssue) : bool :=
  includes "Missing Secure flag" i.(CookieChecker.issues).

(** [raw] is [cookieStr] cut to its first hundred characters, with the
    marker ["..."] when something was cut off. *)
Definition truncated (cookieStr raw : string) : Prop :=
  (String.length cookieStr <= 100 -> raw = cookieStr)
  /\ (100 < String.length cookieStr ->
      exists kept dropped,
        cookieStr = kept ++ dropped /\ String.length kept = 100
        /\ raw = kept ++ "...").

(** The cookie records a finding lists; the finding for a response
    without cookies has no [cookies] field and lists none. *)
Definition listed_cookies (finding : CookieChecker.Finding)
  : list CookieChecker.CookieRecord :=
  match finding.(CookieChecker.cookies) with
  | Some records => records
  | None => []
  end.

(** The [Set-Cookie] values of a response: [headers['set-cookie'] || []]. *)
Definition set_cookies (response : Response) : list string :=
  match set_cookie (headers response) with
  | Some l => l
  | None => []
  end.

(** ASCII characters other than the capitals A-Z. *)
Definition plain (d : ascii) : bool :=
  (N_of_ascii d <? 128)%N && negb (isUpper d).

(** ASCII characters. *)
Definition seven_bit (d : ascii) : bool := (N_of_ascii d <? 128)%N.

(** All 256 characters. *)
Definition all_ascii : list ascii := map ascii_of_nat (seq 0 256).

(** An occurrence of the directive in [h]: after [before] comes a keyword
    equal to ["max-age="] up to case, then the maximal run of digits
    [run], which is not empty. *)
Definition max_age_occurrence (h before keyword run rest : string) : Prop :=
  h = before ++ keyword ++ run ++ rest
  /\ ci_equal keyword "max-age=" = true
  /\ run <> EmptyString
  /\ all_chars isDigit run = true
  /\ starts_with_char isDigit rest = false.

(** [run] is the digit run of the leftmost occurrence in [h]. *)
Definition first_max_age (h run : string) : Prop :=
  exists before keyword rest,
    max_age_occurrence h before keyword run rest
    /\ forall before' keyword' d rest',
        h = before' ++ keyword' ++ String d rest' ->
        ci_equal keyword' "max-age=" = true ->
        isDigit d = true ->
        String.length before <= String.length before'.



(** The verdict of the [max-age] tiering for a header value, before the
    [includeSubDomains] rule. *)
Definition tier (h : string) : HstsChecker.verdict :=
  HstsChecker.max_age_tier (HstsChecker.parse_maxAge h)
                           (floor_div (HstsChecker.parse_maxAge h) 86400).

Definition tier_severity (h : string) : string := fst (fst (tier h)).

Definition tier_issues (h : string) : list string := snd (tier h).

Definition found_issues (finding : HstsChecker.Finding) : list string :=
  match finding.(HstsChecker.details).(HstsChecker.issues) with
  | Some l => l
  | None => []
  end.

(** The three tiers of the [max-age] classification, on the finding for a
    header value [h]. *)
Definition max_age_tiered (h : string) (finding : HstsChecker.Finding) : Prop :=
  let unweakened :=
    tier_severity h = "ok"
    /\ finding.(HstsChecker.status) = "HSTS Enabled"
    /\ finding.(HstsChecker.severity)
       = (if finding.(HstsChecker.details).(HstsChecker.includeSubDomains)
          then "ok" else "warning") in
  match HstsChecker.parse_maxAge h with
  | Num seconds =>
      if (seconds =? 0)%Z then
        finding.(HstsChecker.severity) = "critical"
        /\ finding.(HstsChecker.status) = "HSTS Misconfigured"
        /\ exists issue, In issue (found_issues finding)
                         /\ contains "effectively disabled" issue
      else if (seconds <? 31536000)%Z then
        finding.(HstsChecker.severity) = "warning"
        /\ finding.(HstsChecker.status) = "HSTS Weak Configuration"
        /\ In ("max-age is " ++ decimal (seconds / 86400)
               ++ " days (recommended: at least 365 days)")
              (found_issues finding)
      else unweakened
  | Infinity => unweakened
  end.

(** The three attribute flags of a [Set-Cookie] value, read off its
    trimmed [;]-separated segments: a segment equal to [secure], one equal
    to [httponly], one that begins with [samesite], all up to case. *)
Definition scan (segments : list string) : bool * bool * bool :=
  (existsb (fun segment => ci_equal segment "secure") segments,
   existsb (fun segment => ci_equal segment "httponly") segments,
   existsb (fun segment => ci_prefix "samesite" segment) segments).

(** The scan over every segment, and the scan that leaves the first
    ([name=value]) segment out. *)
Definition scan_all (cookieStr : string) : bool * bool * bool :=
  scan (map trim (split ";" cookieStr)).

Definition scan_after_first (cookieStr : string) : bool * bool * bool :=
  scan (tl (map trim (split ";" cookieStr))).

Definition flags (record : CookieChecker.CookieRecord) : bool * bool * bool :=
  (record.(CookieChecker.secure), record.(CookieChecker.httpOnly),
   record.(CookieChecker.sameSite)).

(** Whether a literal matches at the start of [s], forgetting what follows
    the match. *)
Definition literal_at (lit s : string) : option unit :=
  option_map (fun _ => tt) (match_literal lit s).

(** Characters that separate directives. *)
Definition separator (c : ascii) : bool :=
  Ascii.eqb c ";" || Ascii.eqb c "," || isWhiteSpace c.

(** [c] matches no character of the pattern [pat] under the [i] flag. *)
Definition avoids (pat : string) (c : ascii) : bool :=
  all_chars (fun p => negb (Canonicalize p =? Canonicalize c)%N) pat.

(** A character that no match of [/max-age=(\d+)/i] or of
    [/includeSubDomains/i] can contain. *)
Definition inert (c : ascii) : bool :=
  negb (isDigit c) && avoids "max-age=" c && avoids "includeSubDomains" c.

Definition blocked (s : string) : bool :=
  match s with
  | EmptyString => true
  | String c _ => inert c
  end.

Fixpoint last_char (s : string) : option ascii :=
  match s with
  | EmptyString => None
  | String c EmptyString => Some c
  | String _ s' => last_char s'
  end.

(** The cut between [a] and [b] falls on a directive boundary: at an end
    of the value or next to a separator. *)
Definition directive_boundary (a b : string) : bool :=
  match last_char a with
  | None => true
  | Some c => separator c
  end
  || match b with
     | EmptyString => true
     | String c _ => separator c
     end.

(** Two findings agree on everything but the [preload] flag and the
    echoed header. *)
Definition same_classification (f g : HstsChecker.Finding) : Prop :=
  f.(HstsChecker.severity) = g.(HstsChecker.severity)
  /\ f.(HstsChecker.status) = g.(HstsChecker.status)
  /\ f.(HstsChecker.message) = g.(HstsChecker.message)
  /\ f.(HstsChecker.details).(HstsChecker.issues)
     = g.(HstsChecker.details).(HstsChecker.issues)
  /\ f.(HstsChecker.details).(HstsChecker.maxAge)
     = g.(HstsChecker.details).(HstsChecker.maxAge)
  /\ f.(HstsChecker.details).(HstsChecker.maxAgeDays)
     = g.(HstsChecker.details).(HstsChecker.maxAgeDays)
  /\ f.(HstsChecker.details).(HstsChecker.includeSubDomains)
     = g.(HstsChecker.details).(HstsChecker.includeSubDomains).

(** Two cookie findings that differ at most in the echoed domain. *)
Definition same_cookie_report (f g : CookieChecker.Finding) : Prop :=
  f.(CookieChecker.success) = g.(CookieChecker.success)
  /\ f.(CookieChecker.error) = g.(CookieChecker.error)
  /\ f.(CookieChecker.cookieCount) = g.(CookieChecker.cookieCount)
  /\ f.(CookieChecker.cookies) = g.(CookieChecker.cookies)
  /\ f.(CookieChecker.finding_issues) = g.(CookieChecker.finding_issues)
  /\ f.(CookieChecker.issueCount) = g.(CookieChecker.issueCount)
  /\ f.(CookieChecker.severity) = g.(CookieChecker.severity)
  /\ f.(CookieChecker.status) = g.(CookieChecker.status)
  /\ f.(CookieChecker.message) = g.(CookieChecker.message).

(** Two HSTS findings that differ at most in the echoed domain. *)
Definition same_hsts_report (f g : HstsChecker.Finding) : Prop :=
  f.(HstsChecker.success) = g.(HstsChecker.success)
  /\ f.(HstsChecker.enabled) = g.(HstsChecker.enabled)
  /\ f.(HstsChecker.error) = g.(HstsChecker.error)
  /\ f.(HstsChecker.severity) = g.(HstsChecker.severity)
  /\ f.(HstsChecker.status) = g.(HstsChecker.status)
  /\ f.(HstsChecker.message) = g.(HstsChecker.message)
  /\ f.(HstsChecker.details) = g.(HstsChecker.details).

(** The severity taxonomy. *)
Definition severities : list string := ["ok"; "warning"; "critical"; "error"].

(** The details of an HSTS finding when no policy was evaluated. *)
Definition no_details : HstsChecker.Details :=
  {| HstsChecker.header := None; HstsChecker.maxAge := None;
     HstsChecker.maxAgeDays := None; HstsChecker.includeSubDomains := false;
     HstsChecker.preload := false; HstsChecker.issues := None |}.

(** A record with at least one attribute missing, and the issues that
    name its missing attributes, in the order Secure, HttpOnly, SameSite. *)
Definition incomplete (record : CookieChecker.CookieRecord) : bool :=
  negb (record.(CookieChecker.secure) && record.(CookieChecker.httpOnly)
        && record.(CookieChecker.sameSite)).

Definition missing_of (record : CookieChecker.CookieRecord) : list string :=
  ((if record.(CookieChecker.secure) then [] else ["Missing Secure flag"])
   ++ (if record.(CookieChecker.httpOnly) then [] else ["Missing HttpOnly flag"])
   ++ (if record.(CookieChecker.sameSite) then []
       else ["Missing SameSite attribute"]))%list.

(** The issue entries a finding lists. *)
Definition listed_issues (finding : CookieChecker.Finding)
  : list CookieChecker.CookieIssue :=
  match finding.(CookieChecker.finding_issues) with
  | Some entries => entries
  | None => []
  end.

(** Two cookie findings with the same verdict: severity, status, message
    and both counts. *)
Definition same_cookie_verdict (f g : CookieChecker.Finding) : Prop :=
  f.(CookieChecker.severity) = g.(CookieChecker.severity)
  /\ f.(CookieChecker.status) = g.(CookieChecker.status)
  /\ f.(CookieChecker.message) = g.(CookieChecker.message)
  /\ f.(CookieChecker.cookieCount) = g.(CookieChecker.cookieCount)
  /\ f.(CookieChecker.issueCount) = g.(CookieChecker.issueCount).

(** [=] or [;]: a header value that begins with one of them has no
    cookie name. *)
Definition name_delimiter (c : ascii) : bool :=
  Ascii.eqb c "=" || Ascii.eqb c ";".

(** [h] has an occurrence of the word [lit], up to case. *)
Definition mentions (lit h : string) : Prop :=
  exists before word after,
    h = before ++ word ++ after /\ ci_equal word lit = true.

(** Severities in increasing order of gravity. *)
Definition rank (severity : string) : nat :=
  if String.eqb severity "ok" then 0
  else if String.eqb severity "warning" then 1
  else if String.eqb severity "critical" then 2
  else 3.

(** [x <= y] on the doubles of the analyzers. *)
Definition jsnum_le (x y : jsnum) : Prop :=
  match x, y with
  | Num a, Num b => (a <= b)%Z
  | _, Infinity => True
  | Infinity, Num _ => False
  end.

(** What a scan of a [Set-Cookie] value finds: the Secure flag, and all
    three attributes. *)
Definition secure_by (scan : string -> bool * bool * bool) (cookieStr : string)
  : bool :=
  fst (fst (scan cookieStr)).

Definition complete_by (scan : string -> bool * bool * bool) (cookieStr : string)
  : bool :=
  let '(secure, httpOnly, sameSite) := scan cookieStr in
  secure && httpOnly && sameSite.

(** The aggregate severity of the finding for the cookies [cookieHeaders],
    whose attributes are read off the header values by [scan]: no cookie;
    every cookie without Secure; some cookie with Secure and some cookie
    with a missing attribute; no cookie with a missing attribute. *)
Definition severity_aggregated (scan : string -> bool * bool * bool)
           (cookieHeaders : list string) (finding : CookieChecker.Finding)
  : Prop :=
  (cookieHeaders = [] ->
   finding.(CookieChecker.severity) = "ok"
   /\ finding.(CookieChecker.cookieCount) = Some 0)
  /\ (cookieHeaders <> [] ->
      (forall c, In c cookieHeaders -> secure_by scan c = false) ->
      finding.(CookieChecker.severity) = "critical"
      /\ finding.(CookieChecker.status) = "Critical Security Issues")
  /\ ((exists c, In c cookieHeaders /\ secure_by scan c = true) ->
      (exists c, In c cookieHeaders /\ complete_by scan c = false) ->
      finding.(CookieChecker.severity) = "warning"
      /\ finding.(CookieChecker.status) = "Security Issues Found")
  /\ (cookieHeaders <> [] ->
      (forall c, In c cookieHeaders -> complete_by scan c = true) ->
      finding.(CookieChecker.severity) = "ok"
      /\ finding.(CookieChecker.status) = "All Cookies Secure").

(** Collaborators for concrete runs: a server that answers every URL with
    the same response, and a network that fails with a given message. *)
Definition response_of (cookies : option (list string)) (hsts : option string)
  : Response :=
  {| headers := {| set_cookie := cookies;
                   strict_transport_security := hsts;
                   other_headers := [("content-type", "text/html")] |} |}.

Definition answers (response : Response) : string -> completion Response :=
  fun _ => Normal response.

Definition fails (description : string) : string -> completion Response :=
  fun _ => Throw description.

(** The finding for a response that carries
    [Strict-Transport-Security: h]. *)
Definition hsts_finding (h : string) : HstsChecker.Finding :=
  HstsChecker.checkHSTS (answers (response_of None (Some h))) "example.com".

End Spec.

(** ** Properties *)

(** [H : a && b = true] into its two halves. *)
Tactic Notation "andb_split" hyp(H) "as" ident(H1) ident(H2) :=
  apply andb_true_iff in H; destruct H as [H1 H2].

Section CookieFacts.

Import CookieChecker.

Lemma cookieIssues_nil_iff cookieStr :
  cookieIssues cookieStr = [] <-> Spec.fully_attributed cookieStr = true.
Proof.
  unfold cookieIssues, Spec.fully_attributed, push.
  destruct (hasSecure _), (hasHttpOnly _), (hasSameSite _); simpl;
    split; intros H; try reflexivity; discriminate H.
Qed.

Lemma cookieIssues_missing_secure cookieStr :
  includes "Missing Secure flag" (cookieIssues cookieStr)
  = Spec.lacks_secure cookieStr.
Proof.
  unfold cookieIssues, Spec.lacks_secure, push.
  destruct (hasSecure _), (hasHttpOnly _), (hasSameSite _); reflexivity.
Qed.

Lemma lacks_secure_has_issue cookieStr :
  Spec.lacks_secure cookieStr = true -> cookieIssues cookieStr <> [].
Proof.
  unfold Spec.lacks_secure. intros H Hnil.
  apply cookieIssues_nil_iff in Hnil. unfold Spec.fully_attributed in Hnil.
  destruct (hasSecure _); simpl in *; discriminate.
Qed.

(** The [forEach] loop appends, in order, one record per header and one
    issue entry per header with a missing attribute. *)
Lemma forEach_each_cookie cookieHeaders : forall index issues cookies,
  forEach_from each_cookie cookieHeaders index (issues, cookies)
  = ((issues ++ Spec.issue_entries index cookieHeaders)%list,
     (cookies ++ Spec.cookie_records index cookieHeaders)%list).
Proof.
  induction cookieHeaders as [|cookieStr rest IH]; intros index issues cookies.
  - simpl. now rewrite !app_nil_r.
  - cbn [forEach_from Spec.issue_entries Spec.cookie_records].
    destruct (each_cookie cookieStr index (issues, cookies)) as [issues' cookies'] eqn:E.
    rewrite IH. unfold each_cookie, push in E.
    destruct (cookieIssues cookieStr) eqn:Hmissing; cbn in E;
      injection E as <- <-; now rewrite <- !app_assoc.
Qed.

Lemma cookie_records_length cookieHeaders : forall index,
  List.length (Spec.cookie_records index cookieHeaders)
  = List.length cookieHeaders.
Proof.
  induction cookieHeaders as [|c rest IH]; intros index; simpl; auto.
Qed.

End CookieFacts.

Section CookieFindings.

Import CookieChecker.

Lemma filter_length_le {A : Type} (p : A -> bool) (l : list A) :
  List.length (filter p l) <= List.length l.
Proof.
  induction l as [|x l IH]; simpl; [lia|]. destruct (p x); simpl; lia.
Qed.

Lemma filter_length_all {A : Type} (p : A -> bool) (l : list A) :
  List.length (filter p l) = List.length l <-> forallb p l = true.
Proof.
  induction l as [|x l IH]; simpl; [tauto|].
  pose proof (filter_length_le p l) as Hle.
  destruct (p x); simpl.
  - rewrite <- IH. lia.
  - split; [lia | discriminate].
Qed.

Lemma issue_entries_cons cookieStr rest index :
  Spec.issue_entries index (cookieStr :: rest) =
  if Spec.fully_attributed cookieStr then Spec.issue_entries (S index) rest
  else {| name := display_name cookieStr index;
          issues := cookieIssues cookieStr;
          raw := raw_of cookieStr |} :: Spec.issue_entries (S index) rest.
Proof.
  cbn [Spec.issue_entries].
  destruct (Spec.fully_attributed cookieStr) eqn:F.
  - apply cookieIssues_nil_iff in F. now rewrite F.
  - destruct (cookieIssues cookieStr) eqn:E; [|reflexivity].
    apply cookieIssues_nil_iff in E. congruence.
Qed.

Lemma issue_entries_nil cookieHeaders : forall index,
  Spec.issue_entries index cookieHeaders = []
  <-> forallb Spec.fully_attributed cookieHeaders = true.
Proof.
  induction cookieHeaders as [|c rest IH]; intros index; [simpl; tauto|].
  rewrite issue_entries_cons. cbn [forallb].
  destruct (Spec.fully_attributed c); simpl; [apply IH|].
  split; discriminate.
Qed.

Lemma issue_entries_missing_secure cookieHeaders : forall index,
  List.length (filter Spec.missing_secure (Spec.issue_entries index cookieHeaders))
  = List.length (filter Spec.lacks_secure cookieHeaders).
Proof.
  induction cookieHeaders as [|c rest IH]; intros index; [reflexivity|].
  rewrite issue_entries_cons. cbn [filter].
  destruct (Spec.fully_attributed c) eqn:F.
  - assert (Spec.lacks_secure c = false) as ->; [|apply IH].
    unfold Spec.fully_attributed, Spec.lacks_secure in *.
    destruct (hasSecure _); [reflexivity | discriminate].
  - cbn [filter]. unfold Spec.missing_secure at 1. cbn [issues].
    rewrite cookieIssues_missing_secure.
    destruct (Spec.lacks_secure c); cbn [List.length]; now rewrite IH.
Qed.

(** The finding for a response, in terms of [Spec.issue_entries] and
    [Spec.cookie_records]. *)
Lemma analyze_unfold domain response :
  analyze domain response =
  let cookieHeaders := Spec.set_cookies response in
  match cookieHeaders with
  | [] => {| success := true; domain := domain; error := None;
             cookieCount := Some 0; cookies := None;
             finding_issues := Some []; issueCount := None;
             severity := "ok"; status := "No Cookies Set";
             message := "No cookies found on this domain" |}
  | _ =>
      let found := Spec.issue_entries 0 cookieHeaders in
      let flagged := negb (forallb Spec.fully_attributed cookieHeaders) in
      let all_insecure := forallb Spec.lacks_secure cookieHeaders in
      let count (n : nat) := Number_toString (Num (Z.of_nat n)) in
      {| success := true; domain := domain; error := None;
         cookieCount := Some (List.length cookieHeaders);
         cookies := Some (Spec.cookie_records 0 cookieHeaders);
         finding_issues := Some found;
         issueCount := Some (List.length found);
         severity := if flagged
                     then (if all_insecure then "critical" else "warning")
                     else "ok";
         status := if flagged
                   then (if all_insecure then "Critical Security Issues"
                         else "Security Issues Found")
                   else "All Cookies Secure";
         message :=
           if flagged
           then "Found " ++ count (List.length found)
                ++ " cookie(s) with security issues out of "
                ++ count (List.length cookieHeaders) ++ " total"
           else "All " ++ count (List.length cookieHeaders)
                ++ " cookies are properly secured" |}
  end.
Proof.
  unfold analyze, Spec.set_cookies.
  destruct (set_cookie (headers response)) as [[|c rest]|]; try reflexivity.
  set (hs := c :: rest).
  replace (List.length hs =? 0)%nat with false by reflexivity.
  unfold forEach. rewrite forEach_each_cookie. cbn [app].
  cbv zeta.
  assert (Hflag : (0 <? List.length (Spec.issue_entries 0 hs))%nat
                  = negb (forallb Spec.fully_attributed hs)).
  { destruct (Spec.issue_entries 0 hs) eqn:E.
    - apply issue_entries_nil in E. now rewrite E.
    - destruct (forallb Spec.fully_attributed hs) eqn:F; [|reflexivity].
      apply (issue_entries_nil hs 0) in F. congruence. }
  assert (Hall : (List.length (filter Spec.missing_secure (Spec.issue_entries 0 hs))
                  =? List.length hs)%nat = forallb Spec.lacks_secure hs).
  { rewrite issue_entries_missing_secure.
    destruct (forallb Spec.lacks_secure hs) eqn:F.
    - apply filter_length_all in F. rewrite F. apply Nat.eqb_refl.
    - apply Nat.eqb_neq. intros Heq. apply filter_length_all in Heq. congruence. }
  fold Spec.missing_secure. rewrite Hflag.
  destruct (negb (forallb Spec.fully_attributed hs)); [|reflexivity].
  rewrite Hall. destruct (forallb Spec.lacks_secure hs); reflexivity.
Qed.

End CookieFindings.

Section StringFacts.

Lemma string_app_nil_r (s : string) : s ++ EmptyString = s.
Proof. induction s as [|c s IH]; simpl; congruence. Qed.

Lemma string_app_assoc (s t u : string) : (s ++ t) ++ u = s ++ t ++ u.
Proof. induction s as [|c s IH]; simpl; congruence. Qed.

Lemma string_app_length (s t : string) :
  String.length (s ++ t) = String.length s + String.length t.
Proof. induction s as [|c s IH]; simpl; congruence. Qed.

(** The first [n] characters of a string that has at least [n]. *)
Lemma substring_prefix (n : nat) : forall s,
  n <= String.length s ->
  exists dropped,
    s = String.substring 0 n s ++ dropped
    /\ String.length (String.substring 0 n s) = n.
Proof.
  induction n as [|n IH]; intros s Hn.
  - exists s. destruct s; simpl; auto.
  - destruct s as [|c s]; simpl in Hn; [lia|].
    destruct (IH s) as (dropped & Hs & Hlen); [lia|].
    exists dropped. simpl. split; congruence.
Qed.

Lemma substring_whole (s : string) :
  String.substring 0 (String.length s) s = s.
Proof. induction s as [|c s IH]; simpl; congruence. Qed.

Lemma raw_of_truncated (cookieStr : string) :
  Spec.truncated cookieStr (CookieChecker.raw_of cookieStr).
Proof.
  unfold Spec.truncated, CookieChecker.raw_of, JS.substring.
  rewrite Nat.min_0_l, Nat.max_0_l, Nat.sub_0_r.
  split; intros Hlen.
  - rewrite Nat.min_r by lia. rewrite substring_whole.
    replace (100 <? String.length cookieStr)%nat with false
      by (symmetry; apply Nat.ltb_ge; lia).
    apply string_app_nil_r.
  - rewrite Nat.min_l by lia.
    replace (100 <? String.length cookieStr)%nat with true
      by (symmetry; apply Nat.ltb_lt; lia).
    destruct (substring_prefix 100 cookieStr) as (dropped & Hs & Hkept); [lia|].
    exists (String.substring 0 100 cookieStr), dropped. auto.
Qed.

End StringFacts.

(** ** The cookie analyzer *)

Section CookieClaims.

Import CookieChecker.

Variable axios_get : string -> completion Response.

Lemma checkCookies_fetched domain response :
  axios_get (normalize_url domain) = Normal response ->
  checkCookies axios_get domain = analyze domain response.
Proof. unfold checkCookies. now intros ->. Qed.

Lemma In_issue_entries cookieHeaders : forall index e,
  In e (Spec.issue_entries index cookieHeaders) ->
  exists cookieStr,
    In cookieStr cookieHeaders
    /\ Spec.fully_attributed cookieStr = false
    /\ e.(raw) = raw_of cookieStr.
Proof.
  induction cookieHeaders as [|c rest IH]; intros index e He; [destruct He|].
  rewrite issue_entries_cons in He.
  destruct (Spec.fully_attributed c) eqn:F.
  - destruct (IH _ _ He) as (s & Hs & Hrest). exists s. simpl. auto.
  - destruct He as [<- | He].
    + exists c. simpl. auto.
    + destruct (IH _ _ He) as (s & Hs & Hrest). exists s. simpl. auto.
Qed.

Lemma issue_entries_In cookieHeaders : forall index cookieStr,
  In cookieStr cookieHeaders ->
  Spec.fully_attributed cookieStr = false ->
  exists e,
    In e (Spec.issue_entries index cookieHeaders)
    /\ e.(raw) = raw_of cookieStr.
Proof.
  induction cookieHeaders as [|c rest IH]; intros index s Hs F; [destruct Hs|].
  rewrite issue_entries_cons.
  destruct Hs as [-> | Hs].
  - rewrite F. eexists. split; [left; reflexivity | reflexivity].
  - destruct (IH (S index) s Hs F) as (e & He & Hraw).
    exists e. split; [|exact Hraw].
    destruct (Spec.fully_attributed c); [exact He | right; exact He].
Qed.

Lemma cookie_records_flags cookieHeaders : forall index,
  Forall2 (fun record cookieStr =>
             Spec.flags record
             = (hasSecure (cookieParts cookieStr),
                hasHttpOnly (cookieParts cookieStr),
                hasSameSite (cookieParts cookieStr)))
          (Spec.cookie_records index cookieHeaders) cookieHeaders.
Proof.
  induction cookieHeaders as [|c rest IH]; intros index; simpl; constructor; auto.
Qed.

End CookieClaims.

(** C9. The cookie count of the finding is the number of [Set-Cookie]
    occurrences of the response, and so is the number of cookie records it
    lists: one record per occurrence, in order, duplicates and malformed
    values included, none skipped and none merged. *)
Theorem cookie_count_matches_headers
        (axios_get : string -> completion Response) (domain : string)
        (response : Response) :
  axios_get (normalize_url domain) = Normal response ->
  let cookieHeaders := Spec.set_cookies response in
  let finding := CookieChecker.checkCookies axios_get domain in
  finding.(CookieChecker.cookieCount) = Some (List.length cookieHeaders)
  /\ List.length (Spec.listed_cookies finding) = List.length cookieHeaders
  /\ Forall2 (fun record cookieStr =>
               let parts := CookieChecker.cookieParts cookieStr in
               Spec.flags record
               = (CookieChecker.hasSecure parts, CookieChecker.hasHttpOnly parts,
                  CookieChecker.hasSameSite parts))
             (Spec.listed_cookies finding) cookieHeaders.
Proof.
  intros Hfetch cookieHeaders finding. subst finding.
  rewrite (checkCookies_fetched _ _ _ Hfetch), analyze_unfold.
  fold cookieHeaders. cbv zeta. unfold Spec.listed_cookies.
  destruct cookieHeaders as [|c rest]; [repeat split; constructor|].
  cbn [CookieChecker.cookieCount CookieChecker.cookies].
  split; [reflexivity|]. split.
  - apply cookie_records_length.
  - apply cookie_records_flags.
Qed.

Lemma cookie_count_matches_headers_witness :
  let response := Spec.response_of (Some ["a=1"; "a=1"; ";;="; EmptyString]) None in
  let finding := CookieChecker.checkCookies (Spec.answers response) "example.com" in
  finding.(CookieChecker.cookieCount) = Some 4
  /\ List.length (Spec.listed_cookies finding) = 4.
Proof.
  intros response finding.
  destruct (cookie_count_matches_headers (Spec.answers response) "example.com"
                                         response eq_refl) as (Hcount & Hlisted & _).
  split; [exact Hcount | exact Hlisted].
Defined.

(** C8. Every issue entry comes from a [Set-Cookie] value with a missing
    attribute and every such value has an entry; the entry's [raw] field
    is the value itself when it has at most 100 characters, and its first
    100 characters followed by ["..."] when it is longer. *)
Theorem issue_raw_truncation
        (axios_get : string -> completion Response) (domain : string)
        (response : Response) :
  axios_get (normalize_url domain) = Normal response ->
  let cookieHeaders := Spec.set_cookies response in
  let finding := CookieChecker.checkCookies axios_get domain in
  exists entries,
    finding.(CookieChecker.finding_issues) = Some entries
    /\ (forall e, In e entries ->
                  exists cookieStr,
                    In cookieStr cookieHeaders
                    /\ Spec.fully_attributed cookieStr = false
                    /\ Spec.truncated cookieStr e.(CookieChecker.raw))
    /\ (forall cookieStr,
           In cookieStr cookieHeaders ->
           Spec.fully_attributed cookieStr = false ->
           exists e, In e entries
                     /\ Spec.truncated cookieStr e.(CookieChecker.raw)).
Proof.
  intros Hfetch cookieHeaders finding. subst finding.
  rewrite (checkCookies_fetched _ _ _ Hfetch), analyze_unfold.
  fold cookieHeaders. cbv zeta.
  destruct cookieHeaders as [|c rest].
  - exists []. split; [reflexivity|]. split; [intros e [] | intros s []].
  - exists (Spec.issue_entries 0 (c :: rest)).
    split; [reflexivity|]. split.
    + intros e He. destruct (In_issue_entries _ _ _ He) as (s & Hs & F & Hraw).
      exists s. rewrite Hraw. auto using raw_of_truncated.
    + intros s Hs F. destruct (issue_entries_In _ 0 _ Hs F) as (e & He & Hraw).
      exists e. rewrite Hraw. auto using raw_of_truncated.
Qed.

Lemma issue_raw_truncation_witness :
  let long := "session=" ++ JS.zeros 120 in
  let response := Spec.response_of (Some ["id=7; Secure; HttpOnly; SameSite=Lax";
                                          long]) None in
  exists entries e,
    (CookieChecker.checkCookies (Spec.answers response) "example.com")
      .(CookieChecker.finding_issues) = Some entries
    /\ In e entries
    /\ Spec.truncated long e.(CookieChecker.raw).
Proof.
  intros long response.
  destruct (issue_raw_truncation (Spec.answers response) "example.com" response
                                 eq_refl)
    as (entries & Hentries & _ & Hall).
  destruct (Hall long) as (e & He & Hraw).
  - right; left; reflexivity.
  - reflexivity.
  - exists entries, e. auto.
Defined.

Example raw_of_101_characters :
  CookieChecker.raw_of ("a=" ++ JS.zeros 99)
  = "a=" ++ JS.zeros 98 ++ "...".
Proof. reflexivity. Qed.

Example raw_of_100_characters :
  CookieChecker.raw_of ("a=" ++ JS.zeros 98) = "a=" ++ JS.zeros 98.
Proof. reflexivity. Qed.

(** ** Fetch failures *)

(** C5. When the fetch fails, each analyzer returns a finding with
    [success] false and severity ["error"] whose message is not empty and
    contains the description of the failure.  Whatever the collaborator
    does, each analyzer returns a finding, the analysis of the response or
    the report of the failure: nothing is thrown to the caller. *)
Theorem fetch_failure_is_reported
        (axios_get : string -> completion Response) (domain : string) :
  (forall description,
      axios_get (normalize_url domain) = Throw description ->
      let cookie_finding := CookieChecker.checkCookies axios_get domain in
      let hsts_finding := HstsChecker.checkHSTS axios_get domain in
      (cookie_finding.(CookieChecker.success) = false
       /\ cookie_finding.(CookieChecker.severity) = "error"
       /\ cookie_finding.(CookieChecker.message) <> EmptyString
       /\ Spec.contains description cookie_finding.(CookieChecker.message))
      /\ (hsts_finding.(HstsChecker.success) = false
          /\ hsts_finding.(HstsChecker.severity) = "error"
          /\ hsts_finding.(HstsChecker.message) <> EmptyString
          /\ Spec.contains description hsts_finding.(HstsChecker.message)))
  /\ ((exists response,
          CookieChecker.checkCookies axios_get domain
          = CookieChecker.analyze domain response
          /\ HstsChecker.checkHSTS axios_get domain
             = HstsChecker.analyze domain response)
      \/ (exists description,
             CookieChecker.checkCookies axios_get domain
             = CookieChecker.failure domain description
             /\ HstsChecker.checkHSTS axios_get domain
                = HstsChecker.failure domain description)).
Proof.
  split.
  - intros description Hfetch. cbv zeta.
    unfold CookieChecker.checkCookies, HstsChecker.checkHSTS.
    rewrite Hfetch. cbn [bind try_catch].
    split; (split; [reflexivity|]; split; [reflexivity|]; split; [discriminate|]).
    + exists "Failed to check cookies: ", EmptyString.
      cbn [CookieChecker.failure CookieChecker.message].
      now rewrite string_app_nil_r.
    + exists "Failed to check HSTS: ", EmptyString.
      cbn [HstsChecker.failure HstsChecker.message].
      now rewrite string_app_nil_r.
  - unfold CookieChecker.checkCookies, HstsChecker.checkHSTS.
    destruct (axios_get (normalize_url domain)) as [response | description].
    + left. now exists response.
    + right. now exists description.
Qed.

Lemma fetch_failure_is_reported_witness :
  let network := Spec.fails "timeout of 10000ms exceeded" in
  (CookieChecker.checkCookies network "example.com").(CookieChecker.severity)
  = "error"
  /\ (HstsChecker.checkHSTS network "example.com").(HstsChecker.severity)
     = "error".
Proof.
  intros network.
  destruct (fetch_failure_is_reported network "example.com") as [Hreport _].
  destruct (Hreport "timeout of 10000ms exceeded" eq_refl)
    as ((_ & Hcookie & _) & (_ & Hhsts & _)).
  split; assumption.
Defined.

Example failure_message :
  (CookieChecker.checkCookies (Spec.fails "getaddrinfo ENOTFOUND nowhere.test")
                              "nowhere.test").(CookieChecker.message)
  = "Failed to check cookies: getaddrinfo ENOTFOUND nowhere.test".
Proof. reflexivity. Qed.

(** ** The HSTS analyzer *)

Section HstsFetch.

Variable axios_get : string -> completion Response.

Lemma checkHSTS_fetched domain response :
  axios_get (normalize_url domain) = Normal response ->
  HstsChecker.checkHSTS axios_get domain = HstsChecker.analyze domain response.
Proof. unfold HstsChecker.checkHSTS. now intros ->. Qed.

End HstsFetch.

(** C3. When the response has no [Strict-Transport-Security] header, the
    finding has severity ["critical"], status ["HSTS Not Enabled"] and
    [enabled] false, whatever other headers the response carries. *)
Theorem hsts_absent_is_critical
        (axios_get : string -> completion Response) (domain : string)
        (response : Response) :
  axios_get (normalize_url domain) = Normal response ->
  strict_transport_security (headers response) = None ->
  let finding := HstsChecker.checkHSTS axios_get domain in
  finding.(HstsChecker.severity) = "critical"
  /\ finding.(HstsChecker.status) = "HSTS Not Enabled"
  /\ finding.(HstsChecker.enabled) = false.
Proof.
  intros Hfetch Habsent finding. subst finding.
  rewrite (checkHSTS_fetched _ _ _ Hfetch).
  unfold HstsChecker.analyze. rewrite Habsent. auto.
Qed.

Lemma hsts_absent_is_critical_witness :
  let response := Spec.response_of (Some ["sid=1; Secure"]) None in
  (HstsChecker.checkHSTS (Spec.answers response) "http://example.com")
    .(HstsChecker.status) = "HSTS Not Enabled".
Proof.
  intros response.
  apply (hsts_absent_is_critical (Spec.answers response) "http://example.com"
                                 response eq_refl eq_refl).
Defined.

(** ** Numbers: the safe-integer range *)

Section SafeIntegers.

Local Open Scope Z_scope.

(** Rounding the quotient [z * w / 86400] (a significand scaled by
    [w = 2^(-e)]) and flooring it afterwards gives the integer quotient:
    the rounding step cannot reach the next integer because [w] exceeds
    half of 86400. *)
Lemma rounded_quotient_floor (z w : Z) :
  0 <= z -> 65536 <= w ->
  let m := z * w / 86400 in
  let r := (z * w) mod 86400 in
  let m' := if (86400 <? 2 * r) || ((86400 =? 2 * r) && Z.odd m)
            then m + 1 else m in
  m' / w = z / 86400.
Proof.
  intros Hz Hw m r m'.
  pose proof (Z.div_mod z 86400 ltac:(lia)) as Hzd.
  pose proof (Z.mod_pos_bound z 86400 ltac:(lia)) as Hzr.
  set (k := z / 86400) in *. set (r0 := z mod 86400) in *.
  pose proof (Z.div_mod (r0 * w) 86400 ltac:(lia)) as Htd.
  pose proof (Z.mod_pos_bound (r0 * w) 86400 ltac:(lia)) as Htr.
  set (t := r0 * w / 86400) in *. set (rr := (r0 * w) mod 86400) in *.
  assert (Hzw : z * w = 86400 * (k * w + t) + rr) by nia.
  assert (Hm : m = k * w + t).
  { subst m. symmetry. apply (Z.div_unique _ _ _ rr); [lia | exact Hzw]. }
  assert (Hr : r = rr).
  { subst r. symmetry. apply (Z.mod_unique _ _ (k * w + t)); [lia | exact Hzw]. }
  assert (Ht : 0 <= t < w) by nia.
  assert (Hfloor : m / w = k).
  { symmetry. apply (Z.div_unique _ _ _ t); [lia | nia]. }
  subst m'.
  destruct ((86400 <? 2 * r) || ((86400 =? 2 * r) && Z.odd m)) eqn:Hup;
    [|exact Hfloor].
  assert (Hhalf : 86400 <= 2 * r).
  { apply orb_true_iff in Hup. destruct Hup as [Hup | Hup].
    - apply Z.ltb_lt in Hup. lia.
    - apply andb_true_iff in Hup. destruct Hup as [Hup _].
      apply Z.eqb_eq in Hup. lia. }
  assert (Hnext : t + 1 < w) by nia.
  symmetry. apply (Z.div_unique _ _ _ (t + 1)); [lia | nia].
Qed.

(** [Math.floor(z / 86400)] is the integer quotient for every safe
    integer [z]. *)
Lemma floor_div_safe (z : Z) :
  0 <= z < 2 ^ 53 ->
  floor_div (Num z) 86400 = Num (z / 86400).
Proof.
  intros [Hz Hsafe]. unfold floor_div.
  destruct (z =? 0) eqn:Hzero.
  - apply Z.eqb_eq in Hzero. now subst z.
  - apply Z.eqb_neq in Hzero.
    assert (Hlog : Z.log2 z < 53) by (apply Z.log2_lt_pow2; lia).
    change (Z.log2 86400) with 16.
    set (l := Z.log2 z - 16).
    set (ex := if (if 0 <=? l then 86400 * 2 ^ l <=? z else 86400 <=? z * 2 ^ (- l))
               then l else l - 1).
    assert (Hex : ex <= l) by (subst ex; destruct (if 0 <=? l then _ else _); lia).
    assert (He : ex - 52 <= -16) by lia.
    replace (ex - 52 <? 0) with true by (symmetry; apply Z.ltb_lt; lia).
    cbv zeta. f_equal.
    apply rounded_quotient_floor; [lia|].
    change 65536 with (2 ^ 16). apply Z.pow_le_mono_r; lia.
Qed.

Lemma floor_div_safe_range (z : Z) :
  0 <= z < 2 ^ 53 -> 0 <= z / 86400 < 2 ^ 53.
Proof.
  intros [Hz Hsafe]. split; [apply Z.div_pos; lia|].
  apply Z.le_lt_trans with z; [|exact Hsafe].
  apply Z.div_le_upper_bound; lia.
Qed.

Lemma round_to_double_safe (v : Z) :
  v < 2 ^ 53 -> round_to_double v = Num v.
Proof.
  intros Hv. unfold round_to_double.
  now replace (v <? 2 ^ 53) with true by (symmetry; apply Z.ltb_lt; exact Hv).
Qed.

Lemma Number_toString_safe (z : Z) :
  z < 2 ^ 53 -> Number_toString (Num z) = decimal z.
Proof.
  intros Hz. unfold Number_toString.
  now replace (z <? 2 ^ 53) with true by (symmetry; apply Z.ltb_lt; exact Hz).
Qed.

End SafeIntegers.

(** ** Characters and case *)

Section Characters.

Lemma In_all_ascii (c : ascii) : In c Spec.all_ascii.
Proof.
  unfold Spec.all_ascii. rewrite <- (ascii_nat_embedding c).
  apply in_map, in_seq. pose proof (nat_ascii_bounded c). lia.
Qed.

Lemma for_all_ascii (p : ascii -> bool) :
  forallb p Spec.all_ascii = true -> forall c, p c = true.
Proof.
  intros H c. rewrite forallb_forall in H. apply H, In_all_ascii.
Qed.

(** Against an ASCII character, the canonical forms of the [i] flag agree
    exactly when the characters are equal up to ASCII case: no other
    Latin-1 letter folds onto an ASCII one. *)
Lemma Canonicalize_ascii (p c : ascii) :
  (N_of_ascii p <? 128)%N = true ->
  (Canonicalize p =? Canonicalize c)%N = Spec.ci_char c p.
Proof.
  intros Hp.
  assert (H : forallb (fun p => forallb (fun c =>
            implb (N_of_ascii p <? 128)%N
                  (Bool.eqb (Canonicalize p =? Canonicalize c)%N (Spec.ci_char c p)))
            Spec.all_ascii) Spec.all_ascii = true) by (vm_compute; reflexivity).
  pose proof (for_all_ascii _ (for_all_ascii _ H p) c) as Hpc. cbv beta in Hpc.
  rewrite Hp in Hpc. now apply Bool.eqb_prop.
Qed.

(** Lower-casing then comparing with a lower-case ASCII letter (or an ASCII
    character that is no letter at all) is comparison up to ASCII case. *)
Lemma toLowerCase_char_ascii (c d : ascii) :
  (N_of_ascii d <? 128)%N = true -> isUpper d = false ->
  Ascii.eqb (toLowerCase_char c) d = Spec.ci_char c d.
Proof.
  intros Hd Hlow.
  assert (H : forallb (fun d => forallb (fun c =>
            implb ((N_of_ascii d <? 128)%N && negb (isUpper d))
                  (Bool.eqb (Ascii.eqb (toLowerCase_char c) d) (Spec.ci_char c d)))
            Spec.all_ascii) Spec.all_ascii = true) by (vm_compute; reflexivity).
  pose proof (for_all_ascii _ (for_all_ascii _ H d) c) as Hdc. cbv beta in Hdc.
  rewrite Hd, Hlow in Hdc. now apply Bool.eqb_prop.
Qed.

End Characters.

(** ** Strings and patterns *)

Section Patterns.

Lemma toLowerCase_eqb (s t : string) :
  Spec.all_chars Spec.plain t = true ->
  String.eqb (toLowerCase s) t = Spec.ci_equal s t.
Proof.
  revert t. induction s as [|c s IH]; intros [|d t] Ht; try reflexivity.
  cbn [Spec.all_chars] in Ht. andb_split Ht as Hd Ht.
  unfold Spec.plain in Hd. andb_split Hd as Hd Hlow.
  apply negb_true_iff in Hlow.
  cbn [toLowerCase String.eqb Spec.ci_equal].
  rewrite <- (toLowerCase_char_ascii c d Hd Hlow), IH by exact Ht.
  destruct (Ascii.eqb (toLowerCase_char c) d); reflexivity.
Qed.

Lemma startsWith_toLowerCase (p s : string) :
  Spec.all_chars Spec.plain p = true ->
  startsWith p (toLowerCase s) = Spec.ci_prefix p s.
Proof.
  unfold startsWith.
  revert s. induction p as [|d p IH]; intros s Hp; [now destruct s|].
  cbn [Spec.all_chars] in Hp. andb_split Hp as Hd Hp.
  unfold Spec.plain in Hd. andb_split Hd as Hd Hlow.
  apply negb_true_iff in Hlow.
  destruct s as [|c s]; [reflexivity|].
  cbn [toLowerCase String.prefix Spec.ci_prefix].
  rewrite <- (toLowerCase_char_ascii c d Hd Hlow), <- IH by exact Hp.
  destruct (ascii_dec d (toLowerCase_char c)) as [<- | Hne].
  - now rewrite Ascii.eqb_refl.
  - destruct (Ascii.eqb_spec (toLowerCase_char c) d); [congruence | reflexivity].
Qed.

Lemma ci_equal_nil_r (s : string) : Spec.ci_equal s EmptyString = true -> s = EmptyString.
Proof. destruct s; [reflexivity | discriminate]. Qed.

(** [match_literal] succeeds exactly when the string begins with the
    pattern up to ASCII case, and returns what follows. *)
Lemma match_literal_Some (pat : string) :
  Spec.all_chars Spec.seven_bit pat = true ->
  forall s rest,
    match_literal pat s = Some rest
    <-> exists keyword, s = keyword ++ rest /\ Spec.ci_equal keyword pat = true.
Proof.
  induction pat as [|p pat IH]; intros Hpat s rest.
  - cbn [match_literal]. split.
    + intros [= ->]. now exists EmptyString.
    + intros (kw & -> & Hkw). apply ci_equal_nil_r in Hkw. now subst kw.
  - cbn [Spec.all_chars] in Hpat. andb_split Hpat as Hp Hpat.
    specialize (IH Hpat).
    destruct s as [|c s]; cbn [match_literal].
    + split; [discriminate|]. intros ([|k kw] & Hs & Hkw); discriminate.
    + rewrite (Canonicalize_ascii p c Hp).
      destruct (Spec.ci_char c p) eqn:Hcp.
      * rewrite IH. split.
        -- intros (kw & -> & Hkw). exists (String c kw). split; [reflexivity|].
           cbn [Spec.ci_equal]. now rewrite Hcp.
        -- intros ([|k kw] & Hs & Hkw); [discriminate|].
           cbn [append] in Hs. injection Hs as <- ->.
           cbn [Spec.ci_equal] in Hkw. apply andb_true_iff in Hkw.
           exists kw. tauto.
      * split; [discriminate|].
        intros ([|k kw] & Hs & Hkw); [discriminate|].
        cbn [append] in Hs. injection Hs as <- ->.
        cbn [Spec.ci_equal] in Hkw. rewrite Hcp in Hkw. discriminate.
Qed.

(** [digits] is the maximal run of digits at the start of the string. *)
Lemma digits_split (s : string) :
  exists rest,
    s = digits s ++ rest
    /\ Spec.all_chars isDigit (digits s) = true
    /\ Spec.starts_with_char isDigit rest = false.
Proof.
  induction s as [|c s (rest & Hs & Hall & Hrest)].
  - now exists EmptyString.
  - cbn [digits]. destruct (isDigit c) eqn:Hc.
    + exists rest. cbn [append Spec.all_chars]. rewrite Hc, Hall.
      repeat split; [congruence | exact Hrest].
    + exists (String c s). cbn. auto.
Qed.

Lemma digits_unique (run rest : string) :
  Spec.all_chars isDigit run = true ->
  Spec.starts_with_char isDigit rest = false ->
  digits (run ++ rest) = run.
Proof.
  intros Hrun Hrest. induction run as [|d run IH].
  - destruct rest as [|c rest]; [reflexivity|].
    cbn in *. now rewrite Hrest.
  - cbn [Spec.all_chars] in Hrun. andb_split Hrun as Hd Hrun.
    cbn [append digits]. rewrite Hd.
    now rewrite IH.
Qed.

(** [search] returns the result at the leftmost position that has one. *)
Lemma search_Some {A : Type} (at_start : string -> option A) (s : string) (r : A) :
  search at_start s = Some r
  <-> exists before suffix,
      s = before ++ suffix /\ at_start suffix = Some r
      /\ forall before' suffix',
          s = before' ++ suffix' ->
          String.length before' < String.length before ->
          at_start suffix' = None.
Proof.
  induction s as [|c s IH].
  - cbn [search]. split.
    + intros H. exists EmptyString, EmptyString. destruct (at_start EmptyString) eqn:E; [|discriminate].
      repeat split; [congruence|]. intros b' s' _ Hlt. cbn in Hlt. lia.
    + intros ([|b before] & suffix & Hs & Hat & _); [|discriminate].
      cbn in Hs. subst suffix. now rewrite Hat.
  - cbn [search]. destruct (at_start (String c s)) eqn:E.
    + split.
      * intros [= ->]. exists EmptyString, (String c s). repeat split; [exact E|].
        intros b' s' _ Hlt. cbn in Hlt. lia.
      * intros ([|b before] & suffix & Hs & Hat & Hleft).
        -- cbn in Hs. subst suffix. congruence.
        -- specialize (Hleft EmptyString (String c s) eq_refl). cbn in Hleft.
           rewrite Hleft in E by lia. discriminate.
    + rewrite IH. split.
      * intros (before & suffix & -> & Hat & Hleft).
        exists (String c before), suffix. repeat split; [exact Hat|].
        intros [|b' before'] suffix' Hs Hlt.
        -- cbn in Hs. now subst suffix'.
        -- cbn in Hs. injection Hs as <- Hs. apply (Hleft before' suffix' Hs).
           cbn in Hlt. lia.
      * intros ([|b before] & suffix & Hs & Hat & Hleft).
        -- cbn in Hs. subst suffix. congruence.
        -- cbn in Hs. injection Hs as <- ->.
           exists before, suffix. repeat split; [exact Hat|].
           intros before' suffix' Hs Hlt.
           apply (Hleft (String c before') suffix'); [now rewrite Hs|].
           cbn. lia.
Qed.

Lemma search_None {A : Type} (at_start : string -> option A) (s : string) :
  search at_start s = None
  <-> forall before suffix, s = before ++ suffix -> at_start suffix = None.
Proof.
  induction s as [|c s IH].
  - cbn [search]. split.
    + intros H [|b before] suffix Hs; [|discriminate]. cbn in Hs. subst suffix.
      destruct (at_start EmptyString); [discriminate | reflexivity].
    + intros H. now rewrite (H EmptyString EmptyString eq_refl).
  - cbn [search]. destruct (at_start (String c s)) eqn:E.
    + split; [discriminate|]. intros H. rewrite (H EmptyString _ eq_refl) in E. discriminate.
    + rewrite IH. split.
      * intros H [|b before] suffix Hs.
        -- cbn in Hs. now subst suffix.
        -- cbn in Hs. injection Hs as <- Hs. now apply (H before).
      * intros H before suffix ->. now apply (H (String c before)).
Qed.

End Patterns.

(** ** The [max-age] directive *)

Section MaxAge.

Import HstsChecker.

Lemma max_age_at_Some (s run : string) :
  max_age_at s = Some run
  <-> exists keyword rest, Spec.max_age_occurrence s EmptyString keyword run rest.
Proof.
  unfold max_age_at, Spec.max_age_occurrence. cbn [append].
  split.
  - destruct (match_literal "max-age=" s) as [after|] eqn:Hlit; [|discriminate].
    apply match_literal_Some in Hlit; [|reflexivity].
    destruct Hlit as (keyword & -> & Hkw).
    destruct (digits_split after) as (rest & Hafter & Hall & Hrest).
    destruct (digits after) as [|d ds] eqn:Hrun; [discriminate|].
    intros [= <-]. exists keyword, rest.
    repeat split; try assumption; [congruence | discriminate].
  - intros (keyword & rest & -> & Hkw & Hne & Hall & Hrest).
    assert (Hlit : match_literal "max-age=" (keyword ++ run ++ rest)
                   = Some (run ++ rest)).
    { apply match_literal_Some; [reflexivity|]. now exists keyword. }
    rewrite Hlit, (digits_unique _ _ Hall Hrest).
    destruct run; [congruence | reflexivity].
Qed.

Lemma max_age_at_None (s : string) :
  max_age_at s = None
  <-> forall keyword d rest,
      s = keyword ++ String d rest ->
      Spec.ci_equal keyword "max-age=" = true -> isDigit d = false.
Proof.
  unfold max_age_at. split.
  - intros Hnone keyword d rest -> Hkw.
    assert (Hlit : match_literal "max-age=" (keyword ++ String d rest)
                   = Some (String d rest)).
    { apply match_literal_Some; [reflexivity|]. now exists keyword. }
    rewrite Hlit in Hnone. cbn [digits] in Hnone.
    destruct (isDigit d); [discriminate | reflexivity].
  - intros Hall.
    destruct (match_literal "max-age=" s) as [after|] eqn:Hlit; [|reflexivity].
    apply match_literal_Some in Hlit; [|reflexivity].
    destruct Hlit as (keyword & -> & Hkw).
    destruct after as [|d rest]; [reflexivity|].
    cbn [digits]. now rewrite (Hall keyword d rest eq_refl Hkw).
Qed.

(** The pattern match returns the digit run of the leftmost occurrence of
    the directive. *)
Lemma maxAgeMatch_first (h run : string) :
  maxAgeMatch h = Some run <-> Spec.first_max_age h run.
Proof.
  unfold maxAgeMatch, Spec.first_max_age. rewrite search_Some. split.
  - intros (before & suffix & -> & Hat & Hleft).
    apply max_age_at_Some in Hat.
    destruct Hat as (keyword & rest & Hs & Hrest). cbn [append] in Hs. subst suffix.
    exists before, keyword, rest. split; [split; [reflexivity | exact Hrest]|].
    intros before' keyword' d rest' Hh Hkw Hd.
    destruct (Nat.le_gt_cases (String.length before) (String.length before'))
      as [Hle | Hlt]; [exact Hle|].
    specialize (Hleft before' _ Hh Hlt).
    rewrite max_age_at_None in Hleft.
    rewrite (Hleft keyword' d rest' eq_refl Hkw) in Hd. discriminate.
  - intros (before & keyword & rest & (-> & Hocc) & Hfirst).
    exists before, (keyword ++ run ++ rest). split; [reflexivity|]. split.
    + apply max_age_at_Some. exists keyword, rest. now split.
    + intros before' suffix' Hh Hlt. apply max_age_at_None.
      intros keyword' d rest' -> Hkw.
      destruct (isDigit d) eqn:Hd; [|reflexivity].
      specialize (Hfirst before' keyword' d rest' Hh Hkw Hd). lia.
Qed.


Local Open Scope Z_scope.

Lemma digit_value_range (c : ascii) :
  isDigit c = true -> 0 <= digit_value c <= 9.
Proof.
  unfold isDigit, digit_value. intros H. andb_split H as Hlo Hhi.
  apply N.leb_le in Hlo, Hhi. lia.
Qed.

Lemma decimal_value_nonneg (run : string) : forall acc,
  Spec.all_chars isDigit run = true -> 0 <= acc -> 0 <= decimal_value acc run.
Proof.
  induction run as [|c run IH]; intros acc Hrun Hacc; [exact Hacc|].
  cbn [Spec.all_chars] in Hrun. andb_split Hrun as Hc Hrun.
  cbn [decimal_value]. apply IH; [exact Hrun|].
  pose proof (digit_value_range c Hc). lia.
Qed.

Lemma round_to_double_nonneg (v : Z) :
  0 <= v ->
  round_to_double v = Infinity \/ exists z, round_to_double v = Num z /\ 0 <= z.
Proof.
  intros Hv. unfold round_to_double.
  destruct (v <? 2 ^ 53) eqn:Hsafe; [right; now exists v|].
  set (e := Z.log2 v - 52). set (m := v / 2 ^ e). cbv zeta.
  set (up := (2 ^ (e - 1) <? v mod 2 ^ e)
             || (2 ^ (e - 1) =? v mod 2 ^ e) && Z.odd m).
  destruct ((if up then m + 1 else m) * 2 ^ e <? 2 ^ 1024); [right | now left].
  eexists. split; [reflexivity|].
  apply Z.ltb_ge in Hsafe.
  assert (53 <= Z.log2 v) by (apply Z.log2_le_pow2; lia).
  assert (0 < 2 ^ e) by (apply Z.pow_pos_nonneg; lia).
  assert (0 <= m) by (apply Z.div_pos; lia).
  destruct up; lia.
Qed.

Lemma first_max_age_digits (h run : string) :
  Spec.first_max_age h run -> Spec.all_chars isDigit run = true.
Proof. intros (before & keyword & rest & (_ & _ & _ & Hrun & _) & _). exact Hrun. Qed.

(** Whatever the header value, the parsed [max-age] is a non-negative
    integer or [Infinity]. *)
Lemma parse_maxAge_nonneg (h : string) :
  parse_maxAge h = Infinity \/ exists z, parse_maxAge h = Num z /\ 0 <= z.
Proof.
  unfold parse_maxAge. destruct (maxAgeMatch h) as [run|] eqn:Hmatch.
  - apply round_to_double_nonneg, decimal_value_nonneg; [|lia].
    apply (first_max_age_digits h), maxAgeMatch_first, Hmatch.
  - right. exists 0. split; [reflexivity | lia].
Qed.

End MaxAge.

(** ** Classification of a header value *)

Section Classification.

Import HstsChecker.

Lemma evaluate_unfold (domain h : string) :
  evaluate domain h =
  let maxAge := parse_maxAge h in
  let maxAgeDays := floor_div maxAge 86400 in
  let v := includeSubDomains_rule (parse_includeSubDomains h) (Spec.tier h) in
  {| success := true; domain := domain; enabled := true; error := None;
     severity := fst (fst v); status := snd (fst v);
     message :=
       if (0 <? List.length (snd v))%nat
       then "HSTS is enabled but has "
            ++ Number_toString (Num (Z.of_nat (List.length (snd v))))
            ++ " issue(s)"
       else "HSTS is properly configured (max-age: "
            ++ Number_toString maxAgeDays ++ " days)";
     details := {| header := Some h; maxAge := Some maxAge;
                   maxAgeDays := Some maxAgeDays;
                   includeSubDomains := parse_includeSubDomains h;
                   preload := parse_preload h; issues := Some (snd v) |} |}.
Proof.
  unfold evaluate, Spec.tier. cbv zeta.
  now destruct (includeSubDomains_rule _ _) as [[severity status] issues].
Qed.

Lemma analyze_present (domain : string) (response : Response) (h : string) :
  strict_transport_security (headers response) = Some h -> h <> EmptyString ->
  analyze domain response = evaluate domain h.
Proof.
  intros Hh Hne. unfold analyze. rewrite Hh.
  destruct (String.eqb_spec h EmptyString); [contradiction | reflexivity].
Qed.

Lemma analyze_empty (domain : string) (response : Response) :
  strict_transport_security (headers response) = Some EmptyString ->
  analyze domain response = not_enabled domain.
Proof. intros Hh. unfold analyze. now rewrite Hh. Qed.

(** The rule leaves the status alone and never lowers a severity. *)
Lemma includeSubDomains_rule_cases (present : bool) (v : verdict) :
  includeSubDomains_rule present v =
  if present then v
  else ((if String.eqb (fst (fst v)) "ok" then "warning" else fst (fst v)),
        snd (fst v),
        (snd v ++ ["includeSubDomains directive not set"])%list).
Proof. destruct v as [[severity status] issues]. now destruct present. Qed.

End Classification.

(** C2, as amended.  For every response whose [Strict-Transport-Security]
    header is present and not empty: a parsed [max-age] of 0 gives severity
    ["critical"], status ["HSTS Misconfigured"] and an issue containing
    ["effectively disabled"], with or without [includeSubDomains]; a
    [max-age] below 31536000 gives severity ["warning"], status
    ["HSTS Weak Configuration"] and an issue that names the day count;
    otherwise the tiering leaves severity ["ok"] and the status is
    ["HSTS Enabled"]. *)
Theorem hsts_max_age_tiers
        (axios_get : string -> completion Response) (domain : string)
        (response : Response) (h : string) :
  axios_get (normalize_url domain) = Normal response ->
  strict_transport_security (headers response) = Some h ->
  h <> EmptyString ->
  Spec.max_age_tiered h (HstsChecker.checkHSTS axios_get domain).
Proof.
  intros Hfetch Hh Hne.
  rewrite (checkHSTS_fetched _ _ _ Hfetch), (analyze_present _ _ _ Hh Hne).
  rewrite evaluate_unfold. cbv zeta.
  unfold Spec.max_age_tiered, Spec.found_issues, Spec.tier_severity.
  cbn [HstsChecker.severity HstsChecker.status HstsChecker.details
       HstsChecker.issues HstsChecker.includeSubDomains].
  rewrite includeSubDomains_rule_cases. unfold Spec.tier.
  destruct (parse_maxAge_nonneg h) as [-> | (z & -> & Hz)].
  - cbn. destruct (HstsChecker.parse_includeSubDomains h); auto.
  - unfold HstsChecker.max_age_tier, strict_equals_Z, less_than_Z, jsnum_eqb.
    destruct (z =? 0)%Z eqn:Hzero.
    + destruct (HstsChecker.parse_includeSubDomains h); cbn;
        (split; [reflexivity|]; split; [reflexivity|]);
        exists "max-age is 0 (effectively disabled)";
        (split; [left; reflexivity|]); now exists "max-age is 0 (", ")".
    + destruct (z <? 31536000)%Z eqn:Hweak.
      * apply Z.ltb_lt in Hweak.
        assert (Hsafe : (0 <= z < 2 ^ 53)%Z) by (split; [exact Hz | lia]).
        rewrite (floor_div_safe z Hsafe).
        rewrite (Number_toString_safe (z / 86400))
          by (apply floor_div_safe_range; exact Hsafe).
        destruct (HstsChecker.parse_includeSubDomains h); cbn;
          (split; [reflexivity|]; split; [reflexivity|]); left; reflexivity.
      * cbn. destruct (HstsChecker.parse_includeSubDomains h); auto.
Qed.

Lemma hsts_max_age_tiers_witness :
  let response := Spec.response_of None (Some "max-age=0; includeSubDomains") in
  (HstsChecker.checkHSTS (Spec.answers response) "example.com")
    .(HstsChecker.status) = "HSTS Misconfigured".
Proof.
  intros response.
  pose proof (hsts_max_age_tiers (Spec.answers response) "example.com" response
                                 "max-age=0; includeSubDomains" eq_refl eq_refl
                                 ltac:(discriminate)) as H.
  unfold Spec.max_age_tiered in H.
  change (HstsChecker.parse_maxAge "max-age=0; includeSubDomains")
    with (Num 0) in H.
  cbv iota beta zeta in H. change (0 =? 0)%Z with true in H.
  cbv iota in H. destruct H as (_ & Hstatus & _). exact Hstatus.
Defined.

(** C2 as stated, for every response whose header is present, fails when
    the header is present with an empty value: [!hstsHeader] holds for the
    empty string, and the finding is the one of a missing header. *)
Lemma empty_header_is_not_tiered :
  let response := Spec.response_of None (Some EmptyString) in
  let finding := HstsChecker.checkHSTS (Spec.answers response) "example.com" in
  strict_transport_security (headers response) = Some EmptyString
  /\ HstsChecker.parse_maxAge EmptyString = Num 0
  /\ finding.(HstsChecker.status) = "HSTS Not Enabled"
  /\ finding.(HstsChecker.details).(HstsChecker.issues) = None
  /\ ~ Spec.max_age_tiered EmptyString finding.
Proof.
  intros response finding. repeat split.
  unfold Spec.max_age_tiered.
  change (HstsChecker.parse_maxAge EmptyString) with (Num 0).
  cbv iota beta zeta. change (0 =? 0)%Z with true. cbv iota.
  intros (_ & Hstatus & _). discriminate Hstatus.
Qed.

(** C4, as amended.  The [includeSubDomains] rule only raises ["ok"] to
    ["warning"] and appends its issue.  For every header value without
    [includeSubDomains]: a severity ["ok"] after the [max-age] tiering
    becomes ["warning"], ["warning"] and ["critical"] stay as they are,
    and, when the value is not empty, the issue
    ["includeSubDomains directive not set"] comes last in the issue list;
    [max-age=86400] alone yields ["warning"] with exactly two issues. *)
Theorem includeSubDomains_rule_only_raises_ok :
  (forall severity status issues,
      HstsChecker.includeSubDomains_rule false (severity, status, issues)
      = ((if String.eqb severity "ok" then "warning" else severity),
         status, (issues ++ ["includeSubDomains directive not set"])%list))
  /\ (forall v, HstsChecker.includeSubDomains_rule true v = v)
  /\ (forall (axios_get : string -> completion Response) domain response h,
         axios_get (normalize_url domain) = Normal response ->
         strict_transport_security (headers response) = Some h ->
         HstsChecker.parse_includeSubDomains h = false ->
         let finding := HstsChecker.checkHSTS axios_get domain in
         (Spec.tier_severity h = "ok" ->
          finding.(HstsChecker.severity) = "warning")
         /\ (Spec.tier_severity h = "warning" ->
             finding.(HstsChecker.severity) = "warning")
         /\ (Spec.tier_severity h = "critical" ->
             finding.(HstsChecker.severity) = "critical")
         /\ (h <> EmptyString ->
             finding.(HstsChecker.details).(HstsChecker.issues)
             = Some (Spec.tier_issues h
                     ++ ["includeSubDomains directive not set"])%list))
  /\ (forall (axios_get : string -> completion Response) domain response,
         axios_get (normalize_url domain) = Normal response ->
         strict_transport_security (headers response) = Some "max-age=86400" ->
         let finding := HstsChecker.checkHSTS axios_get domain in
         finding.(HstsChecker.severity) = "warning"
         /\ finding.(HstsChecker.details).(HstsChecker.issues)
            = Some ["max-age is 1 days (recommended: at least 365 days)";
                    "includeSubDomains directive not set"]).
Proof.
  split; [reflexivity|]. split; [now intros [[severity status] issues]|]. split.
  - intros axios_get domain response h Hfetch Hh Hsub finding. subst finding.
    rewrite (checkHSTS_fetched _ _ _ Hfetch).
    destruct (String.eqb_spec h EmptyString) as [-> | Hne].
    + rewrite (analyze_empty _ _ Hh).
      change (Spec.tier_severity EmptyString) with "critical".
      repeat split; try discriminate; try reflexivity. congruence.
    + rewrite (analyze_present _ _ _ Hh Hne), evaluate_unfold. cbv zeta.
      cbn [HstsChecker.severity HstsChecker.details HstsChecker.issues].
      rewrite includeSubDomains_rule_cases, Hsub.
      unfold Spec.tier_severity, Spec.tier_issues. cbn [fst snd].
      repeat split; try (intros ->; reflexivity).
  - intros axios_get domain response Hfetch Hh finding. subst finding.
    rewrite (checkHSTS_fetched _ _ _ Hfetch).
    rewrite (analyze_present _ _ _ Hh) by discriminate.
    split; reflexivity.
Qed.

Lemma includeSubDomains_rule_only_raises_ok_witness :
  let response := Spec.response_of None (Some "max-age=63072000; preload") in
  (HstsChecker.checkHSTS (Spec.answers response) "example.com")
    .(HstsChecker.severity) = "warning"
  /\ (HstsChecker.checkHSTS (Spec.answers response) "example.com")
       .(HstsChecker.details).(HstsChecker.issues)
     = Some ["includeSubDomains directive not set"].
Proof.
  intros response.
  destruct includeSubDomains_rule_only_raises_ok as (_ & _ & Hrule & _).
  destruct (Hrule (Spec.answers response) "example.com" response
                  "max-age=63072000; preload" eq_refl eq_refl eq_refl)
    as (Hok & _ & _ & Hissues).
  split; [apply Hok; reflexivity | apply Hissues; discriminate].
Defined.

(** C4 as stated, for every header value without [includeSubDomains],
    fails for the empty value: the rule is never reached, the finding is
    the one of a missing header and has no issue list, so the issue is
    not appended. *)
Lemma empty_header_gets_no_issue :
  let response := Spec.response_of None (Some EmptyString) in
  let finding := HstsChecker.checkHSTS (Spec.answers response) "example.com" in
  strict_transport_security (headers response) = Some EmptyString
  /\ HstsChecker.parse_includeSubDomains EmptyString = false
  /\ finding.(HstsChecker.status) = "HSTS Not Enabled"
  /\ finding.(HstsChecker.details).(HstsChecker.issues) = None
  /\ ~ In "includeSubDomains directive not set" (Spec.found_issues finding)
  /\ finding.(HstsChecker.details).(HstsChecker.issues)
     <> Some (Spec.tier_issues EmptyString
              ++ ["includeSubDomains directive not set"])%list.
Proof.
  intros response finding.
  repeat split; [intros [] | discriminate].
Qed.




(** ** Cookie attributes *)

Section Attributes.

Import CookieChecker.

Lemma existsb_ext_eq {A : Type} (p q : A -> bool) (l : list A) :
  (forall x, p x = q x) -> existsb p l = existsb q l.
Proof. intros H. induction l as [|x l IH]; simpl; [reflexivity|]. now rewrite H, IH. Qed.

Lemma flags_scan_all (cookieStr : string) :
  (hasSecure (cookieParts cookieStr), hasHttpOnly (cookieParts cookieStr),
   hasSameSite (cookieParts cookieStr)) = Spec.scan_all cookieStr.
Proof.
  unfold Spec.scan_all, Spec.scan, hasSecure, hasHttpOnly, hasSameSite, some,
    cookieParts.
  f_equal; [f_equal|]; apply existsb_ext_eq; intros segment.
  - now apply toLowerCase_eqb.
  - now apply toLowerCase_eqb.
  - now apply startsWith_toLowerCase.
Qed.

Lemma lacks_secure_scan (cookieStr : string) :
  Spec.lacks_secure cookieStr = negb (Spec.secure_by Spec.scan_all cookieStr).
Proof.
  unfold Spec.lacks_secure, Spec.secure_by. now rewrite <- flags_scan_all.
Qed.

Lemma fully_attributed_scan (cookieStr : string) :
  Spec.fully_attributed cookieStr = Spec.complete_by Spec.scan_all cookieStr.
Proof.
  unfold Spec.fully_attributed, Spec.complete_by. now rewrite <- flags_scan_all.
Qed.

Lemma complete_by_secure (scan : string -> bool * bool * bool) (cookieStr : string) :
  Spec.complete_by scan cookieStr = true -> Spec.secure_by scan cookieStr = true.
Proof.
  unfold Spec.complete_by, Spec.secure_by.
  destruct (scan cookieStr) as [[[|] httpOnly] sameSite]; [reflexivity | discriminate].
Qed.

Lemma cookie_records_scan cookieHeaders : forall index,
  Forall2 (fun record cookieStr => Spec.flags record = Spec.scan_all cookieStr)
          (Spec.cookie_records index cookieHeaders) cookieHeaders.
Proof.
  induction cookieHeaders as [|c rest IH]; intros index; simpl; constructor.
  - apply flags_scan_all.
  - apply IH.
Qed.

Lemma split_nonempty (sep : ascii) (s : string) : split sep s <> [].
Proof.
  destruct s as [|c s]; cbn [split]; [discriminate|].
  destruct (Ascii.eqb c sep); [discriminate|].
  destruct (split sep s); discriminate.
Qed.

(** [split] cuts at every separator and nowhere else. *)
Lemma split_join (sep : ascii) (s : string) :
  Spec.join sep (split sep s) = s.
Proof.
  induction s as [|c s IH]; [reflexivity|]. cbn [split].
  pose proof (split_nonempty sep s) as Hne.
  destruct (split sep s) as [|seg segs]; [contradiction|].
  destruct (Ascii.eqb_spec c sep) as [-> | Hc].
  - change (Spec.join sep (EmptyString :: seg :: segs))
      with (EmptyString ++ String sep (Spec.join sep (seg :: segs))).
    now rewrite IH.
  - destruct segs; cbn in *; congruence.
Qed.

Lemma split_segments (sep : ascii) (s : string) :
  Forall (fun segment => Spec.has_char sep segment = false) (split sep s).
Proof.
  induction s as [|c s IH]; [now repeat constructor|]. cbn [split].
  destruct (Ascii.eqb_spec c sep) as [-> | Hne].
  - now constructor.
  - destruct (split sep s) as [|seg segs].
    + repeat constructor. cbn.
      destruct (Ascii.eqb_spec sep c); [congruence | reflexivity].
    + inversion IH as [|? ? Hseg Hsegs]; subst. constructor; [|exact Hsegs].
      cbn. rewrite Hseg.
      destruct (Ascii.eqb_spec sep c); [congruence | reflexivity].
Qed.

(** [trim] removes white space at both ends and nothing else. *)
Lemma trimStart_spec (s : string) :
  exists blanks,
    s = blanks ++ trimStart s
    /\ Spec.all_chars isWhiteSpace blanks = true
    /\ Spec.starts_with_char isWhiteSpace (trimStart s) = false.
Proof.
  induction s as [|c s (blanks & Hs & Hblanks & Hstart)].
  - now exists EmptyString.
  - cbn [trimStart]. destruct (isWhiteSpace c) eqn:Hc.
    + exists (String c blanks). cbn. rewrite Hc, Hblanks.
      repeat split; [congruence | exact Hstart].
    + exists EmptyString. cbn. auto.
Qed.

Lemma trimEnd_spec (s : string) :
  exists blanks,
    s = trimEnd s ++ blanks
    /\ Spec.all_chars isWhiteSpace blanks = true
    /\ (forall kept c, trimEnd s = kept ++ String c EmptyString -> isWhiteSpace c = false).
Proof.
  induction s as [|c s (blanks & Hs & Hblanks & Hend)].
  - exists EmptyString. repeat split. intros [|k kept] c H; discriminate.
  - cbn [trimEnd]. destruct (trimEnd s) as [|t ts] eqn:Htrim.
    + destruct (isWhiteSpace c) eqn:Hc.
      * exists (String c blanks). cbn in *. rewrite Hc, Hblanks.
        repeat split; [congruence|]. intros [|k kept] d H; discriminate.
      * exists blanks. cbn in *. repeat split; [congruence | exact Hblanks|].
        intros [|k [|k' kept]] d H; try discriminate. cbn in H. congruence.
    + exists blanks. cbn in *. repeat split; [congruence | exact Hblanks|].
      intros [|k kept] d H; [discriminate|].
      cbn in H. injection H as -> H. now apply (Hend kept d).
Qed.

End Attributes.

(** C6, as amended.  For every [Set-Cookie] value, split on [;] with each
    segment trimmed, the [secure], [httpOnly] and [sameSite] flags of its
    record say whether some segment, the first one included, is [secure]
    up to case, is [httponly] up to case, begins with [samesite] up to
    case. *)
Theorem cookie_attribute_detection
        (axios_get : string -> completion Response) (domain : string)
        (response : Response) :
  axios_get (normalize_url domain) = Normal response ->
  Forall2 (fun record cookieStr => Spec.flags record = Spec.scan_all cookieStr)
          (Spec.listed_cookies (CookieChecker.checkCookies axios_get domain))
          (Spec.set_cookies response).
Proof.
  intros Hfetch.
  rewrite (checkCookies_fetched _ _ _ Hfetch), analyze_unfold. cbv zeta.
  unfold Spec.listed_cookies.
  destruct (Spec.set_cookies response) as [|c rest]; [constructor|].
  cbn [CookieChecker.cookies]. apply cookie_records_scan.
Qed.

Lemma cookie_attribute_detection_witness :
  let response :=
    Spec.response_of (Some ["sid=1; SECURE ;httpOnly; SameSite=Lax"]) None in
  exists record,
    Spec.listed_cookies (CookieChecker.checkCookies (Spec.answers response)
                                                    "example.com") = [record]
    /\ Spec.flags record = (true, true, true).
Proof.
  intros response.
  pose proof (cookie_attribute_detection (Spec.answers response) "example.com"
                                         response eq_refl) as H.
  destruct (Spec.listed_cookies _) as [|record records]; [inversion H|].
  inversion H as [|? ? ? ? Hflags Hrest]; subst.
  inversion Hrest; subst. exists record. split; [reflexivity | exact Hflags].
Defined.

(** C6 as stated leaves the first segment out of the scan.  The analyzer
    does not: a cookie whose name is [SameSite] is reported as carrying the
    SameSite attribute, and a first segment [secure] as the Secure flag. *)
Lemma cookie_first_segment_is_scanned :
  let response := Spec.response_of (Some ["SameSite=Lax; Path=/"; "secure"]) None in
  exists first second,
    (CookieChecker.checkCookies (Spec.answers response) "example.com")
      .(CookieChecker.cookies) = Some [first; second]
    /\ Spec.flags first = (false, false, true)
    /\ Spec.scan_after_first "SameSite=Lax; Path=/" = (false, false, false)
    /\ Spec.flags second = (true, false, false)
    /\ Spec.scan_after_first "secure" = (false, false, false).
Proof.
  intros response. eexists. eexists.
  split; [reflexivity|]. repeat split; reflexivity.
Qed.

(** C1, as amended.  Aggregate severity of the cookie finding, with the
    attributes of a cookie read by the scan of all its segments, the first
    one included.  With no [Set-Cookie] value the finding has severity
    ["ok"] and [cookieCount] 0.  Otherwise: if every cookie lacks the
    Secure flag the severity is ["critical"] with status
    ["Critical Security Issues"]; if some cookie has Secure and some cookie
    misses an attribute the severity is ["warning"] with status
    ["Security Issues Found"]; if no cookie misses an attribute the
    severity is ["ok"] with status ["All Cookies Secure"]. *)
Theorem cookie_aggregate_severity
        (axios_get : string -> completion Response) (domain : string)
        (response : Response) :
  axios_get (normalize_url domain) = Normal response ->
  Spec.severity_aggregated Spec.scan_all (Spec.set_cookies response)
                           (CookieChecker.checkCookies axios_get domain).
Proof.
  intros Hfetch. unfold Spec.severity_aggregated.
  rewrite (checkCookies_fetched _ _ _ Hfetch), analyze_unfold. cbv zeta.
  destruct (Spec.set_cookies response) as [|c rest].
  - split; [auto|]. split; [congruence|].
    split; [intros (c & [] & _) | congruence].
  - set (hs := c :: rest).
    cbn [CookieChecker.severity CookieChecker.status CookieChecker.cookieCount].
    split; [discriminate|].
    split; [intros _ Hall | split;
            [intros (c1 & Hin1 & Hsec) (c2 & Hin2 & Hmiss) | intros _ Hfull]].
    + assert (forallb Spec.fully_attributed hs = false) as ->.
      { cbn [hs forallb]. specialize (Hall c (or_introl eq_refl)).
        destruct (Spec.fully_attributed c) eqn:F; [|reflexivity].
        rewrite fully_attributed_scan in F.
        apply complete_by_secure in F. congruence. }
      assert (forallb Spec.lacks_secure hs = true) as ->.
      { apply forallb_forall. intros c' Hin.
        now rewrite lacks_secure_scan, (Hall c' Hin). }
      auto.
    + assert (forallb Spec.lacks_secure hs = false) as ->.
      { destruct (forallb Spec.lacks_secure hs) eqn:E; [|reflexivity].
        rewrite forallb_forall in E. specialize (E _ Hin1).
        rewrite lacks_secure_scan, Hsec in E. discriminate. }
      assert (forallb Spec.fully_attributed hs = false) as ->.
      { destruct (forallb Spec.fully_attributed hs) eqn:E; [|reflexivity].
        rewrite forallb_forall in E. specialize (E _ Hin2).
        rewrite fully_attributed_scan, Hmiss in E. discriminate. }
      auto.
    + assert (forallb Spec.fully_attributed hs = true) as ->.
      { apply forallb_forall. intros c' Hin.
        now rewrite fully_attributed_scan, (Hfull c' Hin). }
      auto.
Qed.

Lemma cookie_aggregate_severity_witness :
  let mixed := Spec.response_of (Some ["sid=1; Secure; HttpOnly; SameSite=Lax";
                                       "theme=dark"]) None in
  let bare := Spec.response_of (Some ["sid=1"; "theme=dark; HttpOnly"]) None in
  (CookieChecker.checkCookies (Spec.answers mixed) "example.com")
    .(CookieChecker.severity) = "warning"
  /\ (CookieChecker.checkCookies (Spec.answers bare) "example.com")
       .(CookieChecker.status) = "Critical Security Issues".
Proof.
  intros mixed bare. split.
  - apply (cookie_aggregate_severity (Spec.answers mixed) "example.com" mixed
                                     eq_refl).
    + exists "sid=1; Secure; HttpOnly; SameSite=Lax". split; [left|]; reflexivity.
    + exists "theme=dark". split; [right; left|]; reflexivity.
  - apply (cookie_aggregate_severity (Spec.answers bare) "example.com" bare
                                     eq_refl).
    + discriminate.
    + intros c [<- | [<- | []]]; reflexivity.
Defined.

(** C1 as stated, with the attributes of a cookie read from the segments
    after the first, fails: the analyzer scans the first segment too.  Of
    the cookies [sid=1] and [secure] neither has a Secure attribute, yet
    the severity is ["warning"] and not ["critical"]; the cookie
    [samesite_pref=dark; Secure; HttpOnly] has no SameSite attribute, yet
    the severity is ["ok"] and not ["warning"]. *)
Lemma first_segment_sways_severity :
  let unsecured := ["sid=1"; "secure"] in
  let preference := "samesite_pref=dark; Secure; HttpOnly" in
  let finding cookieHeaders :=
    CookieChecker.checkCookies
      (Spec.answers (Spec.response_of (Some cookieHeaders) None)) "example.com" in
  (forall c, In c unsecured -> Spec.secure_by Spec.scan_after_first c = false)
  /\ (finding unsecured).(CookieChecker.severity) = "warning"
  /\ ~ Spec.severity_aggregated Spec.scan_after_first unsecured (finding unsecured)
  /\ Spec.secure_by Spec.scan_after_first preference = true
  /\ Spec.complete_by Spec.scan_after_first preference = false
  /\ (finding [preference]).(CookieChecker.severity) = "ok"
  /\ ~ Spec.severity_aggregated Spec.scan_after_first [preference]
                                (finding [preference]).
Proof.
  intros unsecured preference finding.
  assert (Hnone : forall c, In c unsecured ->
                            Spec.secure_by Spec.scan_after_first c = false)
    by (intros c [<- | [<- | []]]; reflexivity).
  split; [exact Hnone|]. split; [reflexivity|]. split.
  - intros (_ & Hcritical & _).
    destruct (Hcritical ltac:(discriminate) Hnone) as [Hseverity _].
    discriminate Hseverity.
  - split; [reflexivity|]. split; [reflexivity|]. split; [reflexivity|].
    intros (_ & _ & Hwarning & _).
    destruct Hwarning as [Hseverity _];
      [exists preference; split; [left|]; reflexivity ..|].
    discriminate Hseverity.
Qed.

(** ** The [preload] directive *)

Section Preload.

Import HstsChecker.

Lemma search_option_map {A B : Type} (g : A -> B) (f : string -> option A)
      (s : string) :
  search (fun x => option_map g (f x)) s = option_map g (search f s).
Proof.
  induction s as [|c s IH]; cbn [search].
  - now destruct (f EmptyString).
  - destruct (f (String c s)); [reflexivity | exact IH].
Qed.

Lemma test_literal_search (lit s : string) :
  test_literal lit s
  = match search (Spec.literal_at lit) s with Some _ => true | None => false end.
Proof.
  unfold test_literal, Spec.literal_at. rewrite search_option_map.
  now destruct (search (match_literal lit) s).
Qed.

(** The positions inside [a] decide alike when what follows [a] cannot
    take part in a match. *)
Lemma search_app_eq {A : Type} (f : string -> option A) (a y y' : string) :
  (forall x, f (x ++ y) = f (x ++ y')) ->
  search f y = search f y' ->
  search f (a ++ y) = search f (a ++ y').
Proof.
  intros Hat Hrest. induction a as [|c a IH]; [exact Hrest|].
  cbn [append search]. rewrite <- IH.
  change (String c (a ++ y)) with (String c a ++ y).
  change (String c (a ++ y')) with (String c a ++ y').
  now rewrite (Hat (String c a)).
Qed.

Lemma match_literal_blocked (pat x y : string) :
  match y with
  | EmptyString => True
  | String c _ => Spec.avoids pat c = true
  end ->
  match_literal pat (x ++ y) = option_map (fun r => r ++ y) (match_literal pat x).
Proof.
  revert x. induction pat as [|p pat IH]; intros x Hy; [reflexivity|].
  destruct x as [|c x].
  - cbn [append match_literal option_map]. destruct y as [|d y]; [reflexivity|].
    unfold Spec.avoids in Hy. cbn [Spec.all_chars] in Hy.
    andb_split Hy as Hd Hrest.
    apply negb_true_iff in Hd. now rewrite Hd.
  - cbn [append match_literal].
    destruct (Canonicalize p =? Canonicalize c)%N; [|reflexivity].
    apply IH. destruct y as [|d y]; [exact I|].
    unfold Spec.avoids in *. cbn [Spec.all_chars] in Hy.
    apply andb_true_iff in Hy. tauto.
Qed.

Lemma digits_blocked (r y : string) :
  Spec.starts_with_char isDigit y = false -> digits (r ++ y) = digits r.
Proof.
  intros Hy. induction r as [|c r IH].
  - destruct y as [|d y]; [reflexivity|]. cbn in *. now rewrite Hy.
  - cbn [append digits]. now rewrite IH.
Qed.

Lemma blocked_inv (y : string) :
  Spec.blocked y = true ->
  Spec.starts_with_char isDigit y = false
  /\ match y with
     | EmptyString => True
     | String c _ => Spec.avoids "max-age=" c = true
     end
  /\ match y with
     | EmptyString => True
     | String c _ => Spec.avoids "includeSubDomains" c = true
     end.
Proof.
  destruct y as [|c y]; [auto|]. unfold Spec.blocked, Spec.inert.
  intros H. andb_split H as H Hsub.
  andb_split H as Hdigit Hmax.
  apply negb_true_iff in Hdigit. auto.
Qed.

Lemma max_age_at_blocked (x y : string) :
  Spec.blocked y = true -> max_age_at (x ++ y) = max_age_at x.
Proof.
  intros Hy. apply blocked_inv in Hy. destruct Hy as (Hdigit & Hmax & _).
  unfold max_age_at. rewrite (match_literal_blocked _ x y Hmax).
  destruct (match_literal "max-age=" x) as [r|]; [|reflexivity].
  cbn [option_map]. now rewrite (digits_blocked r y Hdigit).
Qed.

Lemma includeSubDomains_at_blocked (x y : string) :
  Spec.blocked y = true ->
  Spec.literal_at "includeSubDomains" (x ++ y) = Spec.literal_at "includeSubDomains" x.
Proof.
  intros Hy. apply blocked_inv in Hy. destruct Hy as (_ & _ & Hsub).
  unfold Spec.literal_at. rewrite (match_literal_blocked _ x y Hsub).
  now destruct (match_literal "includeSubDomains" x).
Qed.

Lemma separator_inert (c : ascii) : Spec.separator c = true -> Spec.inert c = true.
Proof.
  assert (H : forallb (fun c => implb (Spec.separator c) (Spec.inert c))
                      Spec.all_ascii = true) by (vm_compute; reflexivity).
  intros Hc. pose proof (for_all_ascii _ H c) as Himp. cbv beta in Himp.
  now rewrite Hc in Himp.
Qed.

Lemma last_char_snoc (a : string) (c : ascii) :
  Spec.last_char a = Some c -> exists a0, a = a0 ++ String c EmptyString.
Proof.
  induction a as [|d a IH]; [discriminate|].
  destruct a as [|d' a'].
  - intros [= ->]. now exists EmptyString.
  - intros H. destruct (IH H) as (a0 & Ha0). exists (String d a0).
    cbn [append]. now rewrite <- Ha0.
Qed.

Lemma last_char_None (a : string) : Spec.last_char a = None -> a = EmptyString.
Proof.
  induction a as [|d a IH]; [reflexivity|].
  destruct a as [|d' a']; [discriminate|]. intros H. specialize (IH H). discriminate.
Qed.

(** No match starts inside an inserted [preload]. *)
Lemma max_age_skips_preload (b : string) :
  search max_age_at ("preload" ++ b) = search max_age_at b.
Proof. reflexivity. Qed.

Lemma includeSubDomains_skips_preload (b : string) :
  search (Spec.literal_at "includeSubDomains") ("preload" ++ b)
  = search (Spec.literal_at "includeSubDomains") b.
Proof. reflexivity. Qed.

(** Inserting [preload] at a directive boundary changes neither search. *)
Lemma search_insert_preload {A : Type} (f : string -> option A) (a b : string) :
  f EmptyString = None ->
  (forall x y, Spec.blocked y = true -> f (x ++ y) = f x) ->
  (forall s, search f ("preload" ++ s) = search f s) ->
  Spec.directive_boundary a b = true ->
  search f (a ++ "preload" ++ b) = search f (a ++ b).
Proof.
  intros Hempty Hblocked Hskip Hcut.
  assert (Hfront : forall c s, Spec.inert c = true ->
                   search f (String c s) = search f s).
  { intros c s Hc. cbn [search].
    now rewrite (Hblocked EmptyString (String c s) Hc : f (String c s) = f EmptyString), Hempty. }
  unfold Spec.directive_boundary in Hcut. apply orb_true_iff in Hcut.
  destruct Hcut as [Ha | Hb].
  - destruct (Spec.last_char a) as [c|] eqn:Hlast.
    + destruct (last_char_snoc a c Hlast) as (a0 & ->).
      apply separator_inert in Ha.
      rewrite !string_app_assoc. cbn [append].
      apply search_app_eq.
      * intros x. now rewrite !Hblocked by exact Ha.
      * rewrite (Hfront c _ Ha), (Hfront c b Ha). apply (Hskip b).
    + apply last_char_None in Hlast. subst a. apply Hskip.
  - assert (Hb' : Spec.blocked b = true).
    { destruct b as [|c b]; [reflexivity|]. now apply separator_inert. }
    apply search_app_eq.
    + intros x. now rewrite !Hblocked by (exact Hb' || reflexivity).
    + apply Hskip.
Qed.

End Preload.

Lemma parse_maxAge_insert_preload (a b : string) :
  Spec.directive_boundary a b = true ->
  HstsChecker.parse_maxAge (a ++ "preload" ++ b) = HstsChecker.parse_maxAge (a ++ b).
Proof.
  intros Hcut. unfold HstsChecker.parse_maxAge, HstsChecker.maxAgeMatch.
  rewrite (search_insert_preload HstsChecker.max_age_at a b);
    [reflexivity | reflexivity | apply max_age_at_blocked
     | apply max_age_skips_preload | exact Hcut].
Qed.

Lemma parse_includeSubDomains_insert_preload (a b : string) :
  Spec.directive_boundary a b = true ->
  HstsChecker.parse_includeSubDomains (a ++ "preload" ++ b)
  = HstsChecker.parse_includeSubDomains (a ++ b).
Proof.
  intros Hcut. unfold HstsChecker.parse_includeSubDomains.
  rewrite !test_literal_search.
  rewrite (search_insert_preload (Spec.literal_at "includeSubDomains") a b);
    [reflexivity | reflexivity | apply includeSubDomains_at_blocked
     | apply includeSubDomains_skips_preload | exact Hcut].
Qed.

Lemma parse_preload_inserted (a b : string) :
  HstsChecker.parse_preload (a ++ "preload" ++ b) = true.
Proof.
  unfold HstsChecker.parse_preload, test_literal.
  destruct (search (match_literal "preload") (a ++ "preload" ++ b)) eqn:Hsearch;
    [reflexivity|].
  rewrite search_None in Hsearch.
  specialize (Hsearch a ("preload" ++ b) eq_refl). discriminate Hsearch.
Qed.

(** C10, as amended.  Take a header value that is not empty and insert
    [preload] at a directive boundary (at an end of the value, or next to
    a [;], a [,] or white space): the finding keeps its severity, status,
    message, issues, [maxAge], [maxAgeDays] and [includeSubDomains]; the
    finding for the value with [preload] has the [preload] flag set. *)
Theorem preload_does_not_influence_classification
        (axios_get axios_get' : string -> completion Response)
        (domain domain' : string) (response response' : Response)
        (a b : string) :
  axios_get (normalize_url domain) = Normal response ->
  axios_get' (normalize_url domain') = Normal response' ->
  strict_transport_security (headers response) = Some (a ++ b) ->
  strict_transport_security (headers response') = Some (a ++ "preload" ++ b) ->
  a ++ b <> EmptyString ->
  Spec.directive_boundary a b = true ->
  Spec.same_classification (HstsChecker.checkHSTS axios_get domain)
                           (HstsChecker.checkHSTS axios_get' domain')
  /\ (HstsChecker.checkHSTS axios_get' domain')
       .(HstsChecker.details).(HstsChecker.preload) = true.
Proof.
  intros Hfetch Hfetch' Hh Hh' Hne Hcut.
  assert (Hne' : a ++ "preload" ++ b <> EmptyString) by (destruct a; discriminate).
  rewrite (checkHSTS_fetched _ _ _ Hfetch), (checkHSTS_fetched _ _ _ Hfetch').
  rewrite (analyze_present _ _ _ Hh Hne), (analyze_present _ _ _ Hh' Hne').
  rewrite !evaluate_unfold. cbv zeta. unfold Spec.same_classification, Spec.tier.
  cbn [HstsChecker.severity HstsChecker.status HstsChecker.message
       HstsChecker.details HstsChecker.issues HstsChecker.maxAge
       HstsChecker.maxAgeDays HstsChecker.includeSubDomains HstsChecker.preload].
  rewrite (parse_maxAge_insert_preload a b Hcut).
  rewrite (parse_includeSubDomains_insert_preload a b Hcut).
  repeat split; try reflexivity. apply parse_preload_inserted.
Qed.

Lemma preload_does_not_influence_classification_witness :
  let a := "max-age=31536000; includeSubDomains;" in
  let b := EmptyString in
  Spec.same_classification (Spec.hsts_finding (a ++ b))
                           (Spec.hsts_finding (a ++ "preload" ++ b)).
Proof.
  intros a b.
  apply (preload_does_not_influence_classification
           (Spec.answers (Spec.response_of None (Some (a ++ b))))
           (Spec.answers (Spec.response_of None (Some (a ++ "preload" ++ b))))
           "example.com" "example.com"
           (Spec.response_of None (Some (a ++ b)))
           (Spec.response_of None (Some (a ++ "preload" ++ b)))
           a b eq_refl eq_refl eq_refl eq_refl).
  - discriminate.
  - reflexivity.
Defined.

(** C10 as stated, for any two header values that differ by a [preload]
    substring, fails when the substring sits inside another directive, and
    when the value without it is empty. *)
Lemma preload_inside_a_directive :
  let a := "max-age=315" in
  let b := "36000; includeSubDomains" in
  (Spec.hsts_finding (a ++ b)).(HstsChecker.severity) = "ok"
  /\ (Spec.hsts_finding (a ++ "preload" ++ b)).(HstsChecker.severity) = "warning"
  /\ ~ Spec.same_classification (Spec.hsts_finding (a ++ b))
                                (Spec.hsts_finding (a ++ "preload" ++ b))
  /\ ~ Spec.same_classification (Spec.hsts_finding EmptyString)
                                (Spec.hsts_finding (EmptyString ++ "preload" ++ EmptyString)).
Proof.
  intros a b. split; [reflexivity|]. split; [reflexivity|]. split.
  - intros (Hseverity & _). discriminate Hseverity.
  - intros (_ & Hstatus & _). discriminate Hstatus.
Qed.

(** ** URL normalization and dispatch *)

Section Dispatch.

Lemma normalize_url_https (domain : string) :
  normalize_url ("https://" ++ domain) = "https://" ++ domain.
Proof. now destruct domain. Qed.

Lemma normalize_url_cases (domain : string) :
  (startsWith "http://" domain = false /\ startsWith "https://" domain = false
   /\ normalize_url domain = "https://" ++ domain)
  \/ ((startsWith "http://" domain = true \/ startsWith "https://" domain = true)
      /\ normalize_url domain = domain).
Proof.
  unfold normalize_url.
  destruct (startsWith "http://" domain), (startsWith "https://" domain); cbn; auto.
Qed.

Lemma cookie_analyze_domain (domain domain' : string) (response : Response) :
  Spec.same_cookie_report (CookieChecker.analyze domain response)
                          (CookieChecker.analyze domain' response).
Proof.
  rewrite !analyze_unfold. cbv zeta.
  destruct (Spec.set_cookies response); repeat split.
Qed.

Lemma hsts_analyze_domain (domain domain' : string) (response : Response) :
  Spec.same_hsts_report (HstsChecker.analyze domain response)
                        (HstsChecker.analyze domain' response).
Proof.
  unfold HstsChecker.analyze.
  destruct (strict_transport_security (headers response)) as [h|];
    [|repeat split].
  destruct (String.eqb h EmptyString); [repeat split|].
  rewrite !evaluate_unfold. repeat split.
Qed.

End Dispatch.

(** X1. The URL handed to the HTTP client always carries a scheme: it
    begins with [http://] or [https://].  Normalizing is idempotent, a
    domain that has a scheme is passed on as it is, and any other domain
    gets [https://] in front. *)
Theorem normalized_url_has_scheme (domain : string) :
  (startsWith "http://" (normalize_url domain) = true
   \/ startsWith "https://" (normalize_url domain) = true)
  /\ normalize_url (normalize_url domain) = normalize_url domain
  /\ (normalize_url domain = domain
      \/ normalize_url domain = "https://" ++ domain
         /\ startsWith "http://" domain = false
         /\ startsWith "https://" domain = false).
Proof.
  destruct (normalize_url_cases domain) as [(Hhttp & Hhttps & ->) | (Hscheme & Heq)].
  - split; [right; now destruct domain|]. split; [apply normalize_url_https|]. auto.
  - rewrite !Heq. split; [exact Hscheme|]. split; [reflexivity | now left].
Qed.

(** X2. A domain given without a scheme is analyzed exactly like the same
    domain with [https://] in front: both analyzers return findings that
    differ at most in the echoed [domain] field. *)
Theorem schemeless_domain_is_https
        (axios_get : string -> completion Response) (domain : string) :
  startsWith "http://" domain = false ->
  startsWith "https://" domain = false ->
  Spec.same_cookie_report (CookieChecker.checkCookies axios_get domain)
                          (CookieChecker.checkCookies axios_get ("https://" ++ domain))
  /\ Spec.same_hsts_report (HstsChecker.checkHSTS axios_get domain)
                           (HstsChecker.checkHSTS axios_get ("https://" ++ domain)).
Proof.
  intros Hhttp Hhttps.
  unfold CookieChecker.checkCookies, HstsChecker.checkHSTS.
  rewrite normalize_url_https.
  assert (normalize_url domain = "https://" ++ domain) as ->
      by (unfold normalize_url; now rewrite Hhttp, Hhttps).
  destruct (axios_get ("https://" ++ domain)) as [response | description];
    cbn [bind try_catch].
  - split; [apply cookie_analyze_domain | apply hsts_analyze_domain].
  - split; repeat split.
Qed.

Lemma schemeless_domain_is_https_witness :
  let server url :=
    if String.eqb url "https://example.com"
    then Normal (Spec.response_of (Some ["sid=1"]) (Some "max-age=0"))
    else Throw "getaddrinfo ENOTFOUND" in
  (CookieChecker.checkCookies server "example.com").(CookieChecker.severity)
  = (CookieChecker.checkCookies server "https://example.com").(CookieChecker.severity).
Proof.
  intros server.
  destruct (schemeless_domain_is_https server "example.com" eq_refl eq_refl)
    as [(_ & _ & _ & _ & _ & _ & Hseverity & _) _].
  exact Hseverity.
Defined.

(** ** Shape of the findings *)

Section Verdicts.

Import HstsChecker.

Lemma max_age_tier_cases (maxAge maxAgeDays : jsnum) :
  (strict_equals_Z maxAge 0 = true
   /\ max_age_tier maxAge maxAgeDays
      = ("critical", "HSTS Misconfigured",
         ["max-age is 0 (effectively disabled)"]))
  \/ (strict_equals_Z maxAge 0 = false /\ less_than_Z maxAge 31536000 = true
      /\ max_age_tier maxAge maxAgeDays
         = ("warning", "HSTS Weak Configuration",
            ["max-age is " ++ Number_toString maxAgeDays
             ++ " days (recommended: at least 365 days)"]))
  \/ (strict_equals_Z maxAge 0 = false /\ less_than_Z maxAge 31536000 = false
      /\ max_age_tier maxAge maxAgeDays = ("ok", "HSTS Enabled", [])).
Proof.
  unfold max_age_tier.
  destruct (strict_equals_Z maxAge 0); [now left|].
  destruct (less_than_Z maxAge 31536000); [right; left | right; right]; auto.
Qed.

Lemma evaluate_severity (domain h : string) :
  In (severity (evaluate domain h)) ["ok"; "warning"; "critical"].
Proof.
  rewrite evaluate_unfold. cbv zeta. cbn [severity].
  rewrite includeSubDomains_rule_cases. unfold Spec.tier.
  destruct (max_age_tier_cases (parse_maxAge h) (floor_div (parse_maxAge h) 86400))
    as [(_ & ->) | [(_ & _ & ->) | (_ & _ & ->)]];
    destruct (parse_includeSubDomains h); cbn; auto.
Qed.

End Verdicts.

(** X3. The severity of a finding is always one of [ok], [warning],
    [critical], [error]; it is [error] exactly when [success] is false,
    which is exactly when the request failed, and then the [error] field
    holds the failure's message.  The domain is echoed unchanged on every
    path. *)
Theorem finding_severity_taxonomy
        (axios_get : string -> completion Response) (domain : string) :
  let cookie_finding := CookieChecker.checkCookies axios_get domain in
  let hsts_finding := HstsChecker.checkHSTS axios_get domain in
  (In cookie_finding.(CookieChecker.severity) Spec.severities
   /\ In hsts_finding.(HstsChecker.severity) Spec.severities)
  /\ ((cookie_finding.(CookieChecker.severity) = "error"
       <-> cookie_finding.(CookieChecker.success) = false)
      /\ (hsts_finding.(HstsChecker.severity) = "error"
          <-> hsts_finding.(HstsChecker.success) = false))
  /\ (cookie_finding.(CookieChecker.success) = false
      <-> exists description,
          axios_get (normalize_url domain) = Throw description
          /\ cookie_finding.(CookieChecker.error) = Some description
          /\ hsts_finding.(HstsChecker.error) = Some description)
  /\ cookie_finding.(CookieChecker.success) = hsts_finding.(HstsChecker.success)
  /\ cookie_finding.(CookieChecker.domain) = domain
  /\ hsts_finding.(HstsChecker.domain) = domain.
Proof.
  cbv zeta. unfold CookieChecker.checkCookies, HstsChecker.checkHSTS.
  destruct (axios_get (normalize_url domain)) as [response | description];
    cbn [bind try_catch].
  - assert (Hcookie : CookieChecker.success (CookieChecker.analyze domain response) = true
                      /\ In (CookieChecker.severity (CookieChecker.analyze domain response))
                            ["ok"; "warning"; "critical"]
                      /\ CookieChecker.domain (CookieChecker.analyze domain response) = domain).
    { rewrite analyze_unfold. cbv zeta.
      destruct (Spec.set_cookies response) as [|c rest]; [cbn; auto|].
      cbn [CookieChecker.success CookieChecker.severity CookieChecker.domain].
      destruct (negb _); [destruct (forallb Spec.lacks_secure _)|];
        cbn [In]; auto 7. }
    assert (Hhsts : HstsChecker.success (HstsChecker.analyze domain response) = true
                    /\ In (HstsChecker.severity (HstsChecker.analyze domain response))
                          ["ok"; "warning"; "critical"]
                    /\ HstsChecker.domain (HstsChecker.analyze domain response) = domain).
    { unfold HstsChecker.analyze.
      destruct (strict_transport_security (headers response)) as [h|];
        [|cbn; auto 7].
      destruct (String.eqb h EmptyString); [cbn; auto 7|].
      split; [|split; [apply evaluate_severity|]];
        rewrite evaluate_unfold; reflexivity. }
    destruct Hcookie as (Hs & Hsev & Hd). destruct Hhsts as (Hs' & Hsev' & Hd').
    rewrite Hs, Hs', Hd, Hd'. unfold Spec.severities.
    split; [split; cbn [In] in *; tauto|].
    split; [split; (split; [intros Herr | discriminate])|].
    + rewrite Herr in Hsev. cbn [In] in Hsev.
      destruct Hsev as [H | [H | [H | []]]]; discriminate H.
    + rewrite Herr in Hsev'. cbn [In] in Hsev'.
      destruct Hsev' as [H | [H | [H | []]]]; discriminate H.
    + split; [split; [discriminate|] | auto].
      intros (description & Hthrow & _). discriminate Hthrow.
  - unfold Spec.severities. cbn.
    split; [auto 7|]. split; [tauto|]. split; [|auto].
    split; [intros _; now exists description | reflexivity].
Qed.

(** X4. An HSTS finding carries policy details exactly when it is
    [enabled], that is when the request succeeded with a header value that
    is not empty; then the header is echoed and [maxAge], [maxAgeDays] and
    the issue list are present.  Otherwise the header and [maxAge] are
    [null], both flags are false and there is no issue list. *)
Theorem hsts_details_presence
        (axios_get : string -> completion Response) (domain : string) :
  let finding := HstsChecker.checkHSTS axios_get domain in
  (finding.(HstsChecker.enabled) = true
   <-> exists response h,
       axios_get (normalize_url domain) = Normal response
       /\ strict_transport_security (headers response) = Some h
       /\ h <> EmptyString
       /\ finding.(HstsChecker.details).(HstsChecker.header) = Some h
       /\ finding.(HstsChecker.details).(HstsChecker.maxAge)
          = Some (HstsChecker.parse_maxAge h)
       /\ finding.(HstsChecker.details).(HstsChecker.maxAgeDays)
          = Some (floor_div (HstsChecker.parse_maxAge h) 86400)
       /\ finding.(HstsChecker.details).(HstsChecker.issues) <> None)
  /\ (finding.(HstsChecker.enabled) = false
      <-> finding.(HstsChecker.details) = Spec.no_details).
Proof.
  cbv zeta. unfold HstsChecker.checkHSTS.
  destruct (axios_get (normalize_url domain)) as [response | description];
    cbn [bind try_catch].
  - unfold HstsChecker.analyze.
    destruct (strict_transport_security (headers response)) as [h|] eqn:Hh.
    + destruct (String.eqb_spec h EmptyString) as [-> | Hne].
      * split; [|split; reflexivity].
        split; [discriminate|].
        intros (r & h & [= <-] & Hh' & Hne & _). congruence.
      * rewrite evaluate_unfold. cbv zeta.
        cbn [HstsChecker.enabled HstsChecker.details HstsChecker.header
             HstsChecker.maxAge HstsChecker.maxAgeDays HstsChecker.issues].
        split; [split; [intros _ | reflexivity] | split; discriminate].
        exists response, h. repeat split; auto. discriminate.
    + split; [|split; reflexivity].
      split; [discriminate|].
      intros (r & h & [= <-] & Hh' & _). congruence.
  - split; [|split; reflexivity].
    split; [discriminate|]. intros (r & h & Hthrow & _). discriminate Hthrow.
Qed.

(** ** Issue entries and cookie records *)

Section Entries.

Import CookieChecker.

Lemma issue_entries_of_records cookieHeaders : forall index,
  map (fun e => (e.(name), e.(issues), e.(raw)))
      (Spec.issue_entries index cookieHeaders)
  = map (fun rc : CookieRecord * string =>
           (cookie_name (fst rc), Spec.missing_of (fst rc), raw_of (snd rc)))
        (filter (fun rc : CookieRecord * string => Spec.incomplete (fst rc))
                (combine (Spec.cookie_records index cookieHeaders) cookieHeaders)).
Proof.
  induction cookieHeaders as [|c rest IH]; intros index; [reflexivity|].
  rewrite issue_entries_cons. cbn [Spec.cookie_records combine filter fst].
  unfold Spec.incomplete at 1. cbn [secure httpOnly sameSite].
  change (hasSecure (cookieParts c) && hasHttpOnly (cookieParts c)
          && hasSameSite (cookieParts c)) with (Spec.fully_attributed c).
  destruct (Spec.fully_attributed c) eqn:F; cbn [negb]; [apply IH|].
  cbn [map fst snd name issues raw cookie_name]. rewrite IH. f_equal.
  unfold cookieIssues, Spec.missing_of, push. cbn [secure httpOnly sameSite].
  now destruct (hasSecure _), (hasHttpOnly _), (hasSameSite _).
Qed.

Lemma issue_entries_length cookieHeaders : forall index,
  List.length (Spec.issue_entries index cookieHeaders)
  = List.length (filter (fun c => negb (Spec.fully_attributed c)) cookieHeaders).
Proof.
  induction cookieHeaders as [|c rest IH]; intros index; [reflexivity|].
  rewrite issue_entries_cons. cbn [filter].
  destruct (Spec.fully_attributed c); cbn [negb List.length]; now rewrite IH.
Qed.

End Entries.

(** X5. The issue entries are the cookie records with a missing attribute,
    in the order of the headers: each entry has the name of its record,
    lists exactly the attributes the record lacks (Secure, HttpOnly,
    SameSite, in that order) and carries the truncated header value.  So
    there are never more entries than cookies.  For a response with at
    least one cookie [issueCount] is the number of entries; for a response
    without cookies the issue list is empty and the finding has no
    [issueCount]. *)
Theorem issue_entries_match_records
        (axios_get : string -> completion Response) (domain : string)
        (response : Response) :
  axios_get (normalize_url domain) = Normal response ->
  let cookieHeaders := Spec.set_cookies response in
  let finding := CookieChecker.checkCookies axios_get domain in
  map (fun e => (e.(CookieChecker.name), e.(CookieChecker.issues),
                 e.(CookieChecker.raw)))
      (Spec.listed_issues finding)
  = map (fun rc : CookieChecker.CookieRecord * string =>
           (CookieChecker.cookie_name (fst rc), Spec.missing_of (fst rc),
            CookieChecker.raw_of (snd rc)))
        (filter (fun rc : CookieChecker.CookieRecord * string =>
                   Spec.incomplete (fst rc))
                (combine (Spec.listed_cookies finding) cookieHeaders))
  /\ List.length (Spec.listed_issues finding) <= List.length cookieHeaders
  /\ (cookieHeaders <> [] ->
      finding.(CookieChecker.issueCount)
      = Some (List.length (Spec.listed_issues finding)))
  /\ (cookieHeaders = [] ->
      finding.(CookieChecker.issueCount) = None
      /\ finding.(CookieChecker.finding_issues) = Some []).
Proof.
  intros Hfetch cookieHeaders finding. subst finding.
  rewrite (checkCookies_fetched _ _ _ Hfetch), analyze_unfold.
  fold cookieHeaders. cbv zeta. unfold Spec.listed_issues, Spec.listed_cookies.
  destruct cookieHeaders as [|c rest];
    [split; [reflexivity|]; split; [apply Nat.le_refl|];
     split; [congruence | auto]|].
  cbn [CookieChecker.finding_issues CookieChecker.cookies CookieChecker.issueCount].
  split; [apply issue_entries_of_records|].
  split; [|split; [reflexivity | discriminate]].
  rewrite issue_entries_length. apply filter_length_le.
Qed.

Lemma issue_entries_match_records_witness :
  let response :=
    Spec.response_of (Some ["a=1; Secure; HttpOnly; SameSite=Lax";
                            "b=2; HttpOnly"]) None in
  let finding := CookieChecker.checkCookies (Spec.answers response) "example.com" in
  map (fun e => (e.(CookieChecker.name), e.(CookieChecker.issues)))
      (Spec.listed_issues finding)
  = [("b", ["Missing Secure flag"; "Missing SameSite attribute"])]
  /\ finding.(CookieChecker.issueCount) = Some 1.
Proof.
  intros response finding.
  destruct (issue_entries_match_records (Spec.answers response) "example.com"
                                        response eq_refl) as (_ & _ & Hcount & _).
  split; [reflexivity | apply Hcount; discriminate].
Defined.

(** The severity of a cookie finding, by the flags of the cookies. *)
Lemma severity_by_flags (domain : string) (response : Response) :
  let cookieHeaders := Spec.set_cookies response in
  let finding := CookieChecker.analyze domain response in
  (finding.(CookieChecker.severity) = "critical"
   <-> cookieHeaders <> []
       /\ forall c, In c cookieHeaders -> Spec.lacks_secure c = true)
  /\ (finding.(CookieChecker.severity) = "warning"
      <-> (exists c, In c cookieHeaders /\ Spec.lacks_secure c = false)
          /\ (exists c, In c cookieHeaders /\ Spec.fully_attributed c = false))
  /\ (finding.(CookieChecker.severity) = "ok"
      <-> forall c, In c cookieHeaders -> Spec.fully_attributed c = true).
Proof.
  intros cookieHeaders finding. subst finding.
  rewrite analyze_unfold.
  fold cookieHeaders. cbv zeta.
  assert (Hall : forall p : string -> bool,
             forallb p cookieHeaders = false <->
             exists c, In c cookieHeaders /\ p c = false).
  { intros p. induction cookieHeaders as [|c rest IH]; cbn [forallb In].
    - split; [discriminate | intros (c & [] & _)].
    - destruct (p c) eqn:Hc; cbn [andb].
      + rewrite IH. split.
        * intros (c' & Hin & Hc'). exists c'. auto.
        * intros (c' & [<- | Hin] & Hc'); [congruence | exists c'; auto].
      + split; [intros _; exists c; auto | reflexivity]. }
  destruct cookieHeaders as [|c rest] eqn:Hhs.
  - cbn [CookieChecker.severity]. split; [|split].
    + split; [discriminate | intros [H _]; congruence].
    + split; [discriminate | intros [(c & [] & _) _]].
    + split; [intros _ c [] | reflexivity].
  - rewrite <- Hhs in *. cbn [CookieChecker.severity].
    assert (Hne : cookieHeaders <> []) by (rewrite Hhs; discriminate).
    assert (Hsec : forall c, In c cookieHeaders ->
               Spec.lacks_secure c = true -> Spec.fully_attributed c = false).
    { intros c' _. unfold Spec.lacks_secure, Spec.fully_attributed.
      now destruct (CookieChecker.hasSecure _). }
    destruct (forallb Spec.fully_attributed cookieHeaders) eqn:Hfull;
      destruct (forallb Spec.lacks_secure cookieHeaders) eqn:Hlack; cbn [negb].
    + rewrite forallb_forall in Hfull, Hlack. exfalso.
      assert (Hin : In c cookieHeaders) by (rewrite Hhs; now left).
      specialize (Hsec c Hin (Hlack c Hin)). rewrite (Hfull c Hin) in Hsec.
      discriminate.
    + rewrite forallb_forall in Hfull. apply Hall in Hlack.
      split; [|split].
      * split; [discriminate|]. intros [_ H].
        destruct Hlack as (c' & Hin & Hc'). rewrite (H c' Hin) in Hc'. discriminate.
      * split; [discriminate|]. intros [_ (c' & Hin & Hc')].
        rewrite (Hfull c' Hin) in Hc'. discriminate.
      * split; [intros _; exact Hfull | reflexivity].
    + rewrite forallb_forall in Hlack. apply Hall in Hfull.
      split; [|split].
      * split; [intros _; split; assumption | reflexivity].
      * split; [discriminate|]. intros [(c' & Hin & Hc') _].
        rewrite (Hlack c' Hin) in Hc'. discriminate.
      * split; [discriminate|]. intros H.
        destruct Hfull as (c' & Hin & Hc'). rewrite (H c' Hin) in Hc'. discriminate.
    + apply Hall in Hfull, Hlack. split; [|split].
      * split; [discriminate|]. intros [_ H].
        destruct Hlack as (c' & Hin & Hc'). rewrite (H c' Hin) in Hc'. discriminate.
      * split; [intros _; split; assumption | reflexivity].
      * split; [discriminate|]. intros H.
        destruct Hfull as (c' & Hin & Hc'). rewrite (H c' Hin) in Hc'. discriminate.
Qed.

(** X6. The severity of a cookie finding says exactly this about the
    cookies, whose attributes are read by the scan of all their segments:
    [critical] if and only if there is a cookie and every cookie lacks
    Secure; [warning] if and only if some cookie has Secure and some
    cookie misses an attribute; [ok] if and only if no cookie misses an
    attribute (in particular when there is no cookie). *)
Theorem cookie_severity_characterized
        (axios_get : string -> completion Response) (domain : string)
        (response : Response) :
  axios_get (normalize_url domain) = Normal response ->
  let cookieHeaders := Spec.set_cookies response in
  let finding := CookieChecker.checkCookies axios_get domain in
  (finding.(CookieChecker.severity) = "critical"
   <-> cookieHeaders <> []
       /\ forall c, In c cookieHeaders ->
                    Spec.secure_by Spec.scan_all c = false)
  /\ (finding.(CookieChecker.severity) = "warning"
      <-> (exists c, In c cookieHeaders
                     /\ Spec.secure_by Spec.scan_all c = true)
          /\ (exists c, In c cookieHeaders
                        /\ Spec.complete_by Spec.scan_all c = false))
  /\ (finding.(CookieChecker.severity) = "ok"
      <-> forall c, In c cookieHeaders ->
                    Spec.complete_by Spec.scan_all c = true).
Proof.
  intros Hfetch cookieHeaders finding. subst finding.
  rewrite (checkCookies_fetched _ _ _ Hfetch).
  destruct (severity_by_flags domain response) as (Hcritical & Hwarning & Hok).
  fold cookieHeaders in Hcritical, Hwarning, Hok.
  assert (Hsecure : forall c b, Spec.lacks_secure c = negb b
                                <-> Spec.secure_by Spec.scan_all c = b).
  { intros c b. rewrite lacks_secure_scan.
    destruct (Spec.secure_by Spec.scan_all c), b; cbn; split; congruence. }
  split; [|split].
  - rewrite Hcritical. split; intros [Hne Hall]; (split; [exact Hne|]);
      intros c Hin; apply (Hsecure c false), Hall, Hin.
  - rewrite Hwarning.
    split; intros [(c1 & Hin1 & Hsec) (c2 & Hin2 & Hmiss)]; split.
    + exists c1. split; [exact Hin1 | apply (Hsecure c1 true), Hsec].
    + exists c2. split; [exact Hin2 | now rewrite <- fully_attributed_scan].
    + exists c1. split; [exact Hin1 | apply (Hsecure c1 true), Hsec].
    + exists c2. split; [exact Hin2 | now rewrite fully_attributed_scan].
  - rewrite Hok. split; intros Hfull c Hin.
    + rewrite <- fully_attributed_scan. now apply Hfull.
    + rewrite fully_attributed_scan. now apply Hfull.
Qed.

Lemma cookie_severity_characterized_witness :
  let response := Spec.response_of (Some ["a=1; HttpOnly"; "b=2"]) None in
  (CookieChecker.checkCookies (Spec.answers response) "example.com")
    .(CookieChecker.severity) = "critical".
Proof.
  intros response.
  destruct (cookie_severity_characterized (Spec.answers response) "example.com"
                                          response eq_refl) as ([_ Hcritical] & _).
  apply Hcritical. split; [discriminate|].
  intros c [<- | [<- | []]]; reflexivity.
Defined.

(** ** Order of the cookies *)

Section Order.

Lemma forallb_Permutation {A : Type} (p : A -> bool) (l l' : list A) :
  Permutation l l' -> forallb p l = forallb p l'.
Proof.
  induction 1 as [|x l l' _ IH|x y l|l l' l'' _ IH1 _ IH2]; cbn [forallb].
  - reflexivity.
  - now rewrite IH.
  - now destruct (p x), (p y).
  - congruence.
Qed.

Lemma filter_length_Permutation {A : Type} (p : A -> bool) (l l' : list A) :
  Permutation l l' -> List.length (filter p l) = List.length (filter p l').
Proof.
  induction 1 as [|x l l' _ IH|x y l|l l' l'' _ IH1 _ IH2]; cbn [filter].
  - reflexivity.
  - destruct (p x); cbn [List.length]; now rewrite IH.
  - now destruct (p x), (p y).
  - congruence.
Qed.

End Order.

(** X7. The verdict on the cookies does not depend on the order in which
    the [Set-Cookie] headers arrive: two responses whose cookie headers are
    permutations of each other get the same severity, status, message,
    [cookieCount] and [issueCount]. *)
Theorem cookie_verdict_ignores_order
        (axios_get axios_get' : string -> completion Response)
        (domain domain' : string) (response response' : Response) :
  axios_get (normalize_url domain) = Normal response ->
  axios_get' (normalize_url domain') = Normal response' ->
  Permutation (Spec.set_cookies response) (Spec.set_cookies response') ->
  Spec.same_cookie_verdict (CookieChecker.checkCookies axios_get domain)
                           (CookieChecker.checkCookies axios_get' domain').
Proof.
  intros Hfetch Hfetch' Hperm.
  rewrite (checkCookies_fetched _ _ _ Hfetch), (checkCookies_fetched _ _ _ Hfetch').
  rewrite !analyze_unfold. cbv zeta. unfold Spec.same_cookie_verdict.
  pose proof (Permutation_length Hperm) as Hlen.
  pose proof (forallb_Permutation Spec.fully_attributed _ _ Hperm) as Hfull.
  pose proof (forallb_Permutation Spec.lacks_secure _ _ Hperm) as Hlack.
  pose proof (filter_length_Permutation
                (fun c => negb (Spec.fully_attributed c)) _ _ Hperm) as Hcount.
  destruct (Spec.set_cookies response) as [|c rest] eqn:Hhs;
    destruct (Spec.set_cookies response') as [|c' rest'] eqn:Hhs';
    try discriminate Hlen; [repeat split|].
  cbn [CookieChecker.severity CookieChecker.status CookieChecker.message
       CookieChecker.cookieCount CookieChecker.issueCount].
  rewrite !issue_entries_length, Hfull, Hlack, Hcount, Hlen. repeat split.
Qed.

Lemma cookie_verdict_ignores_order_witness :
  let r := Spec.response_of (Some ["a=1; Secure"; "b=2"; "c=3; HttpOnly"]) None in
  let r' := Spec.response_of (Some ["c=3; HttpOnly"; "a=1; Secure"; "b=2"]) None in
  Spec.same_cookie_verdict
    (CookieChecker.checkCookies (Spec.answers r) "example.com")
    (CookieChecker.checkCookies (Spec.answers r') "example.com").
Proof.
  intros r r'.
  apply (cookie_verdict_ignores_order (Spec.answers r) (Spec.answers r')
           "example.com" "example.com" r r' eq_refl eq_refl).
  change (Permutation ("a=1; Secure" :: ["b=2"; "c=3; HttpOnly"])
                      (["c=3; HttpOnly"] ++ "a=1; Secure" :: ["b=2"])).
  apply Permutation_cons_app. apply perm_swap.
Defined.

(** ** Segments and names *)

Section Segments.

Import CookieChecker.

Lemma split_app_sep (sep : ascii) (a b : string) :
  split sep (a ++ String sep b) = (split sep a ++ split sep b)%list.
Proof.
  induction a as [|c a IH]; cbn [append split].
  - now rewrite Ascii.eqb_refl.
  - rewrite IH. destruct (Ascii.eqb c sep); [reflexivity|].
    pose proof (split_nonempty sep a) as Hne.
    destruct (split sep a) as [|seg segs]; [contradiction | reflexivity].
Qed.

Lemma first_split_app (sep : ascii) (a b : string) :
  Spec.has_char sep a = false ->
  first (split sep (a ++ b)) = a ++ first (split sep b).
Proof.
  induction a as [|c a IH]; intros Ha; [reflexivity|].
  cbn [Spec.has_char] in Ha. apply orb_false_iff in Ha. destruct Ha as [Hc Ha].
  cbn [append split]. rewrite Ascii.eqb_sym, Hc.
  specialize (IH Ha). pose proof (split_nonempty sep (a ++ b)) as Hne.
  destruct (split sep (a ++ b)) as [|seg segs]; [contradiction|].
  cbn [first] in *. now rewrite IH.
Qed.

Lemma first_split_sep (sep : ascii) (b : string) :
  first (split sep (String sep b)) = EmptyString.
Proof. cbn [split]. now rewrite Ascii.eqb_refl. Qed.

Lemma first_split_other (sep c : ascii) (b : string) :
  Ascii.eqb c sep = false ->
  first (split sep (String c b)) = String c (first (split sep b)).
Proof.
  intros Hc. cbn [split]. rewrite Hc.
  pose proof (split_nonempty sep b) as Hne.
  destruct (split sep b); [contradiction | reflexivity].
Qed.

Lemma first_map_trim (segments : list string) :
  segments <> [] -> first (map trim segments) = trim (first segments).
Proof. destruct segments; [contradiction | reflexivity]. Qed.

Lemma trimEnd_nonblank (c : ascii) (x : string) :
  isWhiteSpace c = false -> trimEnd (String c x) = String c (trimEnd x).
Proof. intros Hc. cbn [trimEnd]. destruct (trimEnd x); now rewrite ?Hc. Qed.

Lemma trimEnd_app_nonblank (a : string) (c : ascii) (x : string) :
  isWhiteSpace c = false ->
  trimEnd (a ++ String c x) = a ++ String c (trimEnd x).
Proof.
  intros Hc. induction a as [|d a IH]; [now apply trimEnd_nonblank|].
  cbn [append trimEnd]. rewrite IH. now destruct a.
Qed.

Lemma trimStart_nonblank (s : string) :
  Spec.starts_with_char isWhiteSpace s = false -> trimStart s = s.
Proof. destruct s as [|c s]; [reflexivity|]. cbn. now intros ->. Qed.

Lemma or_string_nonempty (x y : string) :
  y <> EmptyString -> or_string x y <> EmptyString.
Proof.
  intros Hy. unfold or_string.
  destruct (String.eqb_spec x EmptyString); assumption.
Qed.

Lemma display_name_nonempty (cookieStr : string) (index : nat) :
  display_name cookieStr index <> EmptyString.
Proof. apply or_string_nonempty. discriminate. Qed.

(** The name of [name=value...] is [name]. *)
Lemma display_name_named (n tail : string) (index : nat) :
  n <> EmptyString ->
  Spec.has_char "=" n = false -> Spec.has_char ";" n = false ->
  Spec.starts_with_char isWhiteSpace n = false ->
  display_name (n ++ "=" ++ tail) index = n.
Proof.
  intros Hne Heq Hsemi Hblank. unfold display_name, cookieParts.
  rewrite first_map_trim by apply split_nonempty.
  rewrite (first_split_app ";" n _ Hsemi).
  change ("=" ++ tail) with (String "=" tail).
  rewrite (first_split_other ";" "=" tail eq_refl).
  unfold trim. rewrite trimStart_nonblank.
  - rewrite (trimEnd_app_nonblank n "=" _ eq_refl).
    rewrite (first_split_app "=" n _ Heq), first_split_sep, string_app_nil_r.
    unfold or_string. destruct (String.eqb_spec n EmptyString); congruence.
  - destruct n as [|d n]; [congruence | exact Hblank].
Qed.

(** Without a name before [=] or [;] the placeholder is used. *)
Lemma display_name_placeholder (cookieStr : string) (index : nat) :
  cookieStr = EmptyString
  \/ Spec.starts_with_char Spec.name_delimiter cookieStr = true ->
  display_name cookieStr index
  = "Cookie " ++ Number_toString (Num (Z.of_nat index + 1)).
Proof.
  intros [-> | Hstart]; [reflexivity|].
  destruct cookieStr as [|c rest]; [discriminate|].
  cbn [Spec.starts_with_char] in Hstart. unfold Spec.name_delimiter in Hstart.
  unfold display_name, cookieParts.
  rewrite first_map_trim by apply split_nonempty.
  apply orb_true_iff in Hstart. destruct Hstart as [Hc | Hc];
    apply Ascii.eqb_eq in Hc; subst c.
  - rewrite (first_split_other ";" "=" rest eq_refl).
    unfold trim. rewrite trimStart_nonblank by reflexivity.
    rewrite (trimEnd_nonblank "=" _ eq_refl), first_split_sep. reflexivity.
  - rewrite first_split_sep. reflexivity.
Qed.

Lemma nth_error_cookie_records cookieHeaders : forall index i cookieStr,
  nth_error cookieHeaders i = Some cookieStr ->
  exists record,
    nth_error (Spec.cookie_records index cookieHeaders) i = Some record
    /\ record.(cookie_name) = display_name cookieStr (index + i).
Proof.
  induction cookieHeaders as [|c rest IH]; intros index [|i] cookieStr Hnth;
    try discriminate Hnth.
  - injection Hnth as ->. eexists. split; [reflexivity|].
    cbn [cookie_name]. now rewrite Nat.add_0_r.
  - cbn [nth_error] in Hnth. destruct (IH (S index) i cookieStr Hnth)
      as (record & Hrecord & Hname).
    exists record. split; [exact Hrecord|].
    rewrite Hname. f_equal. lia.
Qed.

End Segments.

(** X8. Every cookie record has a name that is not empty.  For a header
    value [name=...] whose name is not empty, has no [=] or [;] and does
    not begin with white space, the record's name is that name.  For a
    header value that is empty or begins with [=] or [;] the name is the
    placeholder [Cookie N], where N counts the headers from one. *)
Theorem cookie_names
        (axios_get : string -> completion Response) (domain : string)
        (response : Response) (i : nat) (cookieStr : string) :
  axios_get (normalize_url domain) = Normal response ->
  nth_error (Spec.set_cookies response) i = Some cookieStr ->
  (Z.of_nat (List.length (Spec.set_cookies response)) < 2 ^ 32)%Z ->
  exists record,
    nth_error (Spec.listed_cookies (CookieChecker.checkCookies axios_get domain)) i
    = Some record
    /\ record.(CookieChecker.cookie_name) <> EmptyString
    /\ (forall n tail,
          cookieStr = n ++ "=" ++ tail ->
          n <> EmptyString ->
          Spec.has_char "=" n = false -> Spec.has_char ";" n = false ->
          Spec.starts_with_char isWhiteSpace n = false ->
          record.(CookieChecker.cookie_name) = n)
    /\ (cookieStr = EmptyString
        \/ Spec.starts_with_char Spec.name_delimiter cookieStr = true ->
        record.(CookieChecker.cookie_name) = "Cookie " ++ decimal (Z.of_nat i + 1)).
Proof.
  intros Hfetch Hnth Hsize.
  rewrite (checkCookies_fetched _ _ _ Hfetch), analyze_unfold. cbv zeta.
  unfold Spec.listed_cookies.
  assert (Hi : i < List.length (Spec.set_cookies response))
    by (apply nth_error_Some; congruence).
  destruct (Spec.set_cookies response) as [|c rest] eqn:Hhs;
    [destruct i; discriminate Hnth|].
  rewrite <- Hhs in *. cbn [CookieChecker.cookies].
  destruct (nth_error_cookie_records _ 0 i cookieStr Hnth)
    as (record & Hrecord & Hname).
  exists record. rewrite Hname. cbn [Nat.add].
  split; [exact Hrecord|]. split; [apply display_name_nonempty|]. split.
  - intros n tail -> Hne Heq Hsemi Hblank. now apply display_name_named.
  - intros Hnameless. rewrite (display_name_placeholder _ _ Hnameless).
    rewrite Number_toString_safe; [reflexivity|].
    assert ((2 ^ 32 < 2 ^ 53)%Z) by reflexivity. lia.
Qed.

Lemma cookie_names_witness :
  let response := Spec.response_of (Some ["session=abc123; Path=/"; "=x"]) None in
  exists record,
    nth_error (Spec.listed_cookies
                 (CookieChecker.checkCookies (Spec.answers response) "example.com")) 0
    = Some record
    /\ record.(CookieChecker.cookie_name) = "session".
Proof.
  intros response.
  destruct (cookie_names (Spec.answers response) "example.com" response 0
                         "session=abc123; Path=/" eq_refl eq_refl eq_refl)
    as (record & Hrecord & _ & Hnamed & _).
  exists record. split; [exact Hrecord|].
  apply (Hnamed "session" "abc123; Path=/"); (reflexivity || discriminate).
Defined.

(** X9. Attributes accumulate over the segments of a header value: the
    flags of [s;t] are the flags of [s] or-ed with the flags of [t].  So
    the order of the attributes does not matter, and any value followed by
    [; Secure; HttpOnly; SameSite=...] has all three flags. *)
Theorem attributes_accumulate (s t : string) :
  let flags_of x :=
    (CookieChecker.hasSecure (CookieChecker.cookieParts x),
     CookieChecker.hasHttpOnly (CookieChecker.cookieParts x),
     CookieChecker.hasSameSite (CookieChecker.cookieParts x)) in
  flags_of (s ++ String ";" t)
  = (fst (fst (flags_of s)) || fst (fst (flags_of t)),
     snd (fst (flags_of s)) || snd (fst (flags_of t)),
     snd (flags_of s) || snd (flags_of t))
  /\ flags_of (s ++ String ";" t) = flags_of (t ++ String ";" s)
  /\ Spec.fully_attributed (s ++ "; Secure; HttpOnly; SameSite=" ++ t) = true.
Proof.
  cbv zeta.
  assert (Hparts : forall a b,
             CookieChecker.cookieParts (a ++ String ";" b)
             = (CookieChecker.cookieParts a ++ CookieChecker.cookieParts b)%list).
  { intros a b. unfold CookieChecker.cookieParts.
    now rewrite split_app_sep, map_app. }
  assert (Hflags : forall a b,
             (CookieChecker.hasSecure (CookieChecker.cookieParts (a ++ String ";" b)),
              CookieChecker.hasHttpOnly (CookieChecker.cookieParts (a ++ String ";" b)),
              CookieChecker.hasSameSite (CookieChecker.cookieParts (a ++ String ";" b)))
             = (CookieChecker.hasSecure (CookieChecker.cookieParts a)
                || CookieChecker.hasSecure (CookieChecker.cookieParts b),
                CookieChecker.hasHttpOnly (CookieChecker.cookieParts a)
                || CookieChecker.hasHttpOnly (CookieChecker.cookieParts b),
                CookieChecker.hasSameSite (CookieChecker.cookieParts a)
                || CookieChecker.hasSameSite (CookieChecker.cookieParts b))).
  { intros a b. rewrite Hparts.
    unfold CookieChecker.hasSecure, CookieChecker.hasHttpOnly,
      CookieChecker.hasSameSite, some.
    now rewrite !existsb_app. }
  cbn [fst snd]. split; [apply Hflags|]. split.
  - rewrite (Hflags s t), (Hflags t s).
    f_equal; [f_equal|]; apply orb_comm.
  - unfold Spec.fully_attributed.
    change (s ++ "; Secure; HttpOnly; SameSite=" ++ t)
      with (s ++ String ";" (" Secure" ++ String ";" (" HttpOnly" ++ String ";" (" SameSite=" ++ t)))).
    rewrite !Hparts.
    unfold CookieChecker.hasSecure, CookieChecker.hasHttpOnly,
      CookieChecker.hasSameSite, some.
    rewrite !existsb_app.
    assert (Hsecure : existsb (fun part => String.eqb (toLowerCase part) "secure")
                              (CookieChecker.cookieParts " Secure") = true)
      by reflexivity.
    assert (Hhttp : existsb (fun part => String.eqb (toLowerCase part) "httponly")
                            (CookieChecker.cookieParts " HttpOnly") = true)
      by reflexivity.
    assert (Hsame : existsb (fun part => startsWith "samesite" (toLowerCase part))
                            (CookieChecker.cookieParts (" SameSite=" ++ t)) = true).
    { unfold CookieChecker.cookieParts.
      pose proof (split_nonempty ";" (" SameSite=" ++ t)) as Hne.
      pose proof (first_split_app ";" " SameSite=" t eq_refl) as Hfirst.
      destruct (split ";" (" SameSite=" ++ t)) as [|seg segs]; [contradiction|].
      cbn [first] in Hfirst. subst seg. cbn [map existsb].
      apply orb_true_iff. left. unfold trim.
      change (" SameSite=" ++ first (split ";" t))
        with (String " " ("SameSite" ++ String "=" (first (split ";" t)))).
      cbn [trimStart]. change (isWhiteSpace " ") with true. cbv iota.
      rewrite trimStart_nonblank by reflexivity.
      rewrite (trimEnd_app_nonblank "SameSite" "=" _ eq_refl).
      destruct (trimEnd (first (split ";" t))); reflexivity. }
    rewrite Hsecure, Hhttp, Hsame. now rewrite !orb_true_r.
Qed.

(** ** Flags and verdict of the HSTS finding *)

Section Flags.

Lemma test_literal_mentions (lit h : string) :
  Spec.all_chars Spec.seven_bit lit = true ->
  test_literal lit h = true <-> Spec.mentions lit h.
Proof.
  intros Hlit. unfold test_literal, Spec.mentions.
  destruct (search (match_literal lit) h) as [after|] eqn:Hsearch.
  - split; [intros _ | reflexivity].
    apply search_Some in Hsearch.
    destruct Hsearch as (before & suffix & -> & Hat & _).
    apply (match_literal_Some lit Hlit) in Hat.
    destruct Hat as (word & -> & Hword). now exists before, word, after.
  - split; [discriminate|]. intros (before & word & after & -> & Hword).
    rewrite search_None in Hsearch. specialize (Hsearch before _ eq_refl).
    assert (Hat : match_literal lit (word ++ after) = Some after)
      by (apply (match_literal_Some lit Hlit); now exists word).
    congruence.
Qed.

End Flags.

(** X10. The [includeSubDomains] and [preload] flags of an evaluated
    policy say whether the header value contains that word anywhere, in
    any mix of upper and lower case: the test is a substring test, not a
    test for a directive of its own. *)
Theorem hsts_flags_are_substring_tests
        (axios_get : string -> completion Response) (domain : string)
        (response : Response) (h : string) :
  axios_get (normalize_url domain) = Normal response ->
  strict_transport_security (headers response) = Some h ->
  h <> EmptyString ->
  let details := (HstsChecker.checkHSTS axios_get domain).(HstsChecker.details) in
  (details.(HstsChecker.includeSubDomains) = true
   <-> Spec.mentions "includeSubDomains" h)
  /\ (details.(HstsChecker.preload) = true <-> Spec.mentions "preload" h).
Proof.
  intros Hfetch Hh Hne.
  rewrite (checkHSTS_fetched _ _ _ Hfetch), (analyze_present _ _ _ Hh Hne).
  rewrite evaluate_unfold. cbv zeta.
  cbn [HstsChecker.details HstsChecker.includeSubDomains HstsChecker.preload].
  split; apply test_literal_mentions; reflexivity.
Qed.

Lemma hsts_flags_are_substring_tests_witness :
  let h := "max-age=31536000; xincludesubdomainsx" in
  (Spec.hsts_finding h).(HstsChecker.details).(HstsChecker.includeSubDomains) = true.
Proof.
  intros h.
  destruct (hsts_flags_are_substring_tests
              (Spec.answers (Spec.response_of None (Some h))) "example.com"
              (Spec.response_of None (Some h)) h eq_refl eq_refl)
    as [[_ Hsub] _]; [discriminate|].
  apply Hsub. now exists "max-age=31536000; x", "includesubdomains", "x".
Defined.

(** X11. For an evaluated policy the verdict hangs together as follows.
    The severity is [critical] exactly when [maxAge] is 0, and [ok]
    exactly when there is no issue, which is exactly when [maxAge] is at
    least 31536000 and [includeSubDomains] is set.  There are at most two
    issues, the [includeSubDomains] issue being listed exactly when the
    flag is false.  The status depends on [maxAge] alone: it is
    ["HSTS Enabled"] exactly when [maxAge] is at least 31536000, also
    when the severity is [warning] for want of [includeSubDomains]. *)
Theorem hsts_verdict_coherent
        (axios_get : string -> completion Response) (domain : string)
        (response : Response) (h : string) :
  axios_get (normalize_url domain) = Normal response ->
  strict_transport_security (headers response) = Some h ->
  h <> EmptyString ->
  let finding := HstsChecker.checkHSTS axios_get domain in
  let issues := Spec.found_issues finding in
  let maxAge := HstsChecker.parse_maxAge h in
  let includeSubDomains := finding.(HstsChecker.details).(HstsChecker.includeSubDomains) in
  (finding.(HstsChecker.severity) = "critical" <-> maxAge = Num 0)
  /\ (finding.(HstsChecker.severity) = "ok" <-> issues = [])
  /\ (issues = [] <-> less_than_Z maxAge 31536000 = false
                     /\ includeSubDomains = true)
  /\ List.length issues <= 2
  /\ (In "includeSubDomains directive not set" issues <-> includeSubDomains = false)
  /\ (finding.(HstsChecker.status) = "HSTS Enabled"
      <-> less_than_Z maxAge 31536000 = false).
Proof.
  intros Hfetch Hh Hne.
  rewrite (checkHSTS_fetched _ _ _ Hfetch), (analyze_present _ _ _ Hh Hne).
  rewrite evaluate_unfold. cbv zeta. unfold Spec.found_issues.
  cbn [HstsChecker.severity HstsChecker.status HstsChecker.details
       HstsChecker.issues HstsChecker.includeSubDomains].
  rewrite includeSubDomains_rule_cases. unfold Spec.tier.
  assert (Hzero : strict_equals_Z (HstsChecker.parse_maxAge h) 0 = true
                  <-> HstsChecker.parse_maxAge h = Num 0).
  { unfold strict_equals_Z, jsnum_eqb.
    destruct (HstsChecker.parse_maxAge h) as [z|]; [|split; discriminate].
    rewrite Z.eqb_eq. split; congruence. }
  assert (Hless : strict_equals_Z (HstsChecker.parse_maxAge h) 0 = true ->
                  less_than_Z (HstsChecker.parse_maxAge h) 31536000 = true).
  { intros H. apply Hzero in H. now rewrite H. }
  destruct (max_age_tier_cases (HstsChecker.parse_maxAge h)
                               (floor_div (HstsChecker.parse_maxAge h) 86400))
    as [(Heq & ->) | [(Heq & Hlt & ->) | (Heq & Hlt & ->)]];
    destruct (HstsChecker.parse_includeSubDomains h); cbn [fst snd app List.length In];
    try (rewrite (Hless Heq)); try rewrite Hlt;
    (split; [rewrite <- Hzero, Heq; split; (reflexivity || discriminate)|]);
    repeat split; try discriminate; try lia; try reflexivity; try tauto;
    try (intros [H | []]; discriminate H);
    try (intros [H | [H | []]]; discriminate H);
    try (intros [H _]; discriminate H);
    try (intros _; auto).
Qed.

Lemma hsts_verdict_coherent_witness :
  let h := "max-age=63072000; preload" in
  let finding := Spec.hsts_finding h in
  finding.(HstsChecker.status) = "HSTS Enabled"
  /\ In "includeSubDomains directive not set" (Spec.found_issues finding).
Proof.
  intros h finding.
  destruct (hsts_verdict_coherent
              (Spec.answers (Spec.response_of None (Some h))) "example.com"
              (Spec.response_of None (Some h)) h eq_refl eq_refl)
    as (_ & _ & _ & _ & [_ Hissue] & [_ Hstatus]); [discriminate|].
  split; [apply Hstatus | apply Hissue]; reflexivity.
Defined.

(** ** Letter case of the header value *)

Section LetterCase.

Import HstsChecker.

Lemma Canonicalize_toLowerCase (c : ascii) :
  Canonicalize (toLowerCase_char c) = Canonicalize c.
Proof.
  assert (H : forallb (fun c => (Canonicalize (toLowerCase_char c)
                                 =? Canonicalize c)%N)
                      Spec.all_ascii = true) by (vm_compute; reflexivity).
  apply N.eqb_eq. apply (for_all_ascii _ H).
Qed.

Lemma isDigit_toLowerCase (c : ascii) :
  isDigit (toLowerCase_char c) = isDigit c
  /\ (isDigit c = true -> toLowerCase_char c = c).
Proof.
  assert (H : forallb (fun c => Bool.eqb (isDigit (toLowerCase_char c)) (isDigit c)
                                && implb (isDigit c)
                                         (Ascii.eqb (toLowerCase_char c) c))
                      Spec.all_ascii = true) by (vm_compute; reflexivity).
  pose proof (for_all_ascii _ H c) as Hc. cbv beta in Hc.
  andb_split Hc as Heq Himp. apply Bool.eqb_prop in Heq. split; [exact Heq|].
  intros Hd. rewrite Hd in Himp. now apply Ascii.eqb_eq.
Qed.

Lemma match_literal_toLowerCase (pat s : string) :
  match_literal pat (toLowerCase s) = option_map toLowerCase (match_literal pat s).
Proof.
  revert s. induction pat as [|p pat IH]; intros s; [reflexivity|].
  destruct s as [|c s]; [reflexivity|].
  cbn [toLowerCase match_literal]. rewrite Canonicalize_toLowerCase.
  destruct (Canonicalize p =? Canonicalize c)%N; [apply IH | reflexivity].
Qed.

Lemma digits_toLowerCase (s : string) : digits (toLowerCase s) = digits s.
Proof.
  induction s as [|c s IH]; [reflexivity|]. cbn [toLowerCase digits].
  destruct (isDigit_toLowerCase c) as [Heq Hsame]. rewrite Heq.
  destruct (isDigit c); [|reflexivity]. now rewrite IH, Hsame.
Qed.

Lemma max_age_at_toLowerCase (s : string) :
  max_age_at (toLowerCase s) = max_age_at s.
Proof.
  unfold max_age_at. rewrite match_literal_toLowerCase.
  destruct (match_literal "max-age=" s) as [rest|]; [|reflexivity].
  cbn [option_map]. now rewrite digits_toLowerCase.
Qed.

Lemma literal_at_toLowerCase (lit s : string) :
  Spec.literal_at lit (toLowerCase s) = Spec.literal_at lit s.
Proof.
  unfold Spec.literal_at. rewrite match_literal_toLowerCase.
  now destruct (match_literal lit s).
Qed.

Lemma search_toLowerCase {A : Type} (f : string -> option A) :
  (forall s, f (toLowerCase s) = f s) ->
  forall s, search f (toLowerCase s) = search f s.
Proof.
  intros Hf s. induction s as [|c s IH]; [reflexivity|].
  cbn [search toLowerCase].
  change (String (toLowerCase_char c) (toLowerCase s))
    with (toLowerCase (String c s)).
  rewrite (Hf (String c s)).
  destruct (f (String c s)); [reflexivity | exact IH].
Qed.

Lemma test_literal_toLowerCase (lit s : string) :
  test_literal lit (toLowerCase s) = test_literal lit s.
Proof.
  rewrite !test_literal_search.
  now rewrite (search_toLowerCase _ (literal_at_toLowerCase lit)).
Qed.

Lemma evaluate_toLowerCase (domain h : string) :
  Spec.same_classification (evaluate domain h) (evaluate domain (toLowerCase h))
  /\ (evaluate domain h).(details).(preload)
     = (evaluate domain (toLowerCase h)).(details).(preload).
Proof.
  rewrite !evaluate_unfold. cbv zeta. unfold Spec.same_classification, Spec.tier.
  cbn [severity status message details issues maxAge maxAgeDays includeSubDomains
       preload].
  unfold parse_maxAge, maxAgeMatch, parse_includeSubDomains, parse_preload.
  rewrite (search_toLowerCase _ max_age_at_toLowerCase), !test_literal_toLowerCase.
  repeat split.
Qed.

End LetterCase.

(** X12. The letter case of the header value never matters: a value and
    its lower-case form get the same severity, status, message, issues,
    [maxAge], [maxAgeDays], [includeSubDomains] and [preload]. *)
Theorem hsts_ignores_letter_case
        (axios_get axios_get' : string -> completion Response)
        (domain domain' : string) (response response' : Response) (h : string) :
  axios_get (normalize_url domain) = Normal response ->
  axios_get' (normalize_url domain') = Normal response' ->
  strict_transport_security (headers response) = Some h ->
  strict_transport_security (headers response') = Some (toLowerCase h) ->
  Spec.same_classification (HstsChecker.checkHSTS axios_get domain)
                           (HstsChecker.checkHSTS axios_get' domain')
  /\ (HstsChecker.checkHSTS axios_get domain).(HstsChecker.details).(HstsChecker.preload)
     = (HstsChecker.checkHSTS axios_get' domain').(HstsChecker.details).(HstsChecker.preload).
Proof.
  intros Hfetch Hfetch' Hh Hh'.
  rewrite (checkHSTS_fetched _ _ _ Hfetch), (checkHSTS_fetched _ _ _ Hfetch').
  destruct h as [|c h].
  - rewrite (analyze_empty _ _ Hh), (analyze_empty _ _ Hh'). repeat split.
  - rewrite (analyze_present _ _ _ Hh) by discriminate.
    rewrite (analyze_present _ _ _ Hh') by discriminate.
    destruct (evaluate_toLowerCase domain (String c h)) as [Hsame Hpreload].
    destruct (evaluate_toLowerCase domain' (String c h)) as [Hsame' Hpreload'].
    rewrite !evaluate_unfold in *. cbv zeta in *.
    unfold Spec.same_classification in *.
    cbn [HstsChecker.severity HstsChecker.status HstsChecker.message
         HstsChecker.details HstsChecker.issues HstsChecker.maxAge
         HstsChecker.maxAgeDays HstsChecker.includeSubDomains
         HstsChecker.preload] in *.
    tauto.
Qed.

Lemma hsts_ignores_letter_case_witness :
  Spec.same_classification
    (Spec.hsts_finding "Max-Age=31536000; IncludeSubDomains; PRELOAD")
    (Spec.hsts_finding "max-age=31536000; includesubdomains; preload").
Proof.
  apply (hsts_ignores_letter_case
           (Spec.answers (Spec.response_of
                            None (Some "Max-Age=31536000; IncludeSubDomains; PRELOAD")))
           (Spec.answers (Spec.response_of
                            None (Some "max-age=31536000; includesubdomains; preload")))
           "example.com" "example.com" _ _
           "Max-Age=31536000; IncludeSubDomains; PRELOAD"
           eq_refl eq_refl eq_refl eq_refl).
Defined.

(** ** Writing and reading back a [max-age] *)

Section RoundTrip.

Import HstsChecker.

Local Open Scope Z_scope.

Lemma decimal_value_of_uint (d : Decimal.uint) : forall acc,
  decimal_value acc (NilEmpty.string_of_uint d)
  = acc * 10 ^ Z.of_N (DecimalPos.Unsigned.usize d)
    + Z.of_N (DecimalPos.Unsigned.of_lu (Decimal.rev d)).
Proof.
  induction d as [|d IH|d IH|d IH|d IH|d IH|d IH|d IH|d IH|d IH|d IH]; intros acc;
    [cbn; lia|..];
    cbn [NilEmpty.string_of_uint decimal_value DecimalPos.Unsigned.usize];
    rewrite IH;
    match goal with
    | |- _ = _ + Z.of_N (DecimalPos.Unsigned.of_lu (Decimal.rev (?c d))) =>
        change (Decimal.rev (c d)) with (Decimal.revapp d (c Decimal.Nil));
        rewrite (DecimalPos.Unsigned.of_lu_revapp d (c Decimal.Nil));
        let v := eval vm_compute in
                 (Z.of_N (DecimalPos.Unsigned.of_lu (c Decimal.Nil))) in
        rewrite N2Z.inj_add, N2Z.inj_mul, N2Z.inj_pow;
        change (Z.of_N (DecimalPos.Unsigned.of_lu (c Decimal.Nil))) with v
    end;
    match goal with
    | |- context [digit_value ?c] =>
        let v := eval vm_compute in (digit_value c) in
        change (digit_value c) with v
    end;
    rewrite N2Z.inj_succ, Z.pow_succ_r by apply N2Z.is_nonneg;
    change (Z.of_N 10) with 10; ring.
Qed.

Lemma string_of_uint_digits (d : Decimal.uint) :
  Spec.all_chars isDigit (NilEmpty.string_of_uint d) = true.
Proof. induction d; cbn; auto. Qed.

Lemma decimal_digits (z : Z) :
  Spec.all_chars isDigit (decimal z) = true /\ decimal z <> EmptyString.
Proof.
  unfold decimal. split; [apply string_of_uint_digits|].
  destruct (Z.to_N z) as [|p]; [discriminate|]. cbn [N.to_uint].
  pose proof (DecimalPos.Unsigned.to_uint_nonnil p) as Hnil.
  destruct (Pos.to_uint p); (contradiction || discriminate).
Qed.

(** Reading the decimal digits of a non-negative integer gives it back. *)
Lemma decimal_value_decimal (z : Z) : 0 <= z -> decimal_value 0 (decimal z) = z.
Proof.
  intros Hz. unfold decimal. rewrite decimal_value_of_uint.
  rewrite <- DecimalPos.Unsigned.of_uint_alt.
  change (Pos.of_uint (N.to_uint (Z.to_N z))) with (N.of_uint (N.to_uint (Z.to_N z))).
  rewrite DecimalN.Unsigned.of_to. lia.
Qed.

Lemma search_here {A : Type} (f : string -> option A) (s : string) (r : A) :
  f s = Some r -> search f s = Some r.
Proof. intros H. destruct s; cbn [search]; now rewrite H. Qed.

Lemma parse_maxAge_written (z : Z) (rest : string) :
  0 <= z < 2 ^ 53 ->
  Spec.starts_with_char isDigit rest = false ->
  parse_maxAge ("max-age=" ++ decimal z ++ rest) = Num z.
Proof.
  intros [Hz Hsafe] Hrest. unfold parse_maxAge, maxAgeMatch.
  destruct (decimal_digits z) as [Hdigits Hne].
  rewrite (search_here _ _ (decimal z)).
  - unfold parseInt. rewrite (decimal_value_decimal z Hz).
    now apply round_to_double_safe.
  - apply max_age_at_Some. exists "max-age=", rest.
    unfold Spec.max_age_occurrence. repeat split; assumption.
Qed.

End RoundTrip.

(** X13. A policy written as [max-age=] followed by the decimal digits of
    a safe integer [n] and then by anything that does not begin with a
    digit is read back exactly: [maxAge] is [n] and [maxAgeDays] is [n]
    divided by 86400, rounded down. *)
Theorem max_age_round_trip
        (axios_get : string -> completion Response) (domain : string)
        (response : Response) (n : Z) (rest : string) :
  axios_get (normalize_url domain) = Normal response ->
  (0 <= n < 2 ^ 53)%Z ->
  Spec.starts_with_char isDigit rest = false ->
  strict_transport_security (headers response)
  = Some ("max-age=" ++ decimal n ++ rest) ->
  let details := (HstsChecker.checkHSTS axios_get domain).(HstsChecker.details) in
  details.(HstsChecker.maxAge) = Some (Num n)
  /\ details.(HstsChecker.maxAgeDays) = Some (Num (n / 86400)).
Proof.
  intros Hfetch Hn Hrest Hh.
  rewrite (checkHSTS_fetched _ _ _ Hfetch).
  rewrite (analyze_present _ _ _ Hh) by discriminate.
  rewrite evaluate_unfold. cbv zeta.
  cbn [HstsChecker.details HstsChecker.maxAge HstsChecker.maxAgeDays].
  rewrite (parse_maxAge_written n rest Hn Hrest).
  now rewrite (floor_div_safe n Hn).
Qed.

Lemma max_age_round_trip_witness :
  (Spec.hsts_finding ("max-age=" ++ decimal 15768000 ++ "; preload"))
    .(HstsChecker.details).(HstsChecker.maxAge) = Some (Num 15768000).
Proof.
  destruct (max_age_round_trip
              (Spec.answers (Spec.response_of
                 None (Some ("max-age=" ++ decimal 15768000 ++ "; preload"))))
              "example.com" _ 15768000 "; preload" eq_refl)
    as [HmaxAge _]; [split; [discriminate | reflexivity] | reflexivity
                     | reflexivity | exact HmaxAge].
Defined.

(** X14. Strengthening a policy never worsens the severity: of two
    evaluated header values, the one with the larger [maxAge] that has
    [includeSubDomains] whenever the other has it gets a severity that is
    no graver. *)
Theorem hsts_severity_monotone
        (axios_get axios_get' : string -> completion Response)
        (domain domain' : string) (response response' : Response)
        (h h' : string) :
  axios_get (normalize_url domain) = Normal response ->
  axios_get' (normalize_url domain') = Normal response' ->
  strict_transport_security (headers response) = Some h ->
  strict_transport_security (headers response') = Some h' ->
  h <> EmptyString -> h' <> EmptyString ->
  Spec.jsnum_le (HstsChecker.parse_maxAge h) (HstsChecker.parse_maxAge h') ->
  (HstsChecker.parse_includeSubDomains h = true ->
   HstsChecker.parse_includeSubDomains h' = true) ->
  Spec.rank (HstsChecker.checkHSTS axios_get' domain').(HstsChecker.severity)
  <= Spec.rank (HstsChecker.checkHSTS axios_get domain).(HstsChecker.severity).
Proof.
  intros Hfetch Hfetch' Hh Hh' Hne Hne' Hle Hsub.
  rewrite (checkHSTS_fetched _ _ _ Hfetch), (checkHSTS_fetched _ _ _ Hfetch').
  rewrite (analyze_present _ _ _ Hh Hne), (analyze_present _ _ _ Hh' Hne').
  rewrite !evaluate_unfold. cbv zeta. cbn [HstsChecker.severity].
  rewrite !includeSubDomains_rule_cases. unfold Spec.tier.
  destruct (parse_maxAge_nonneg h) as [Hm | (z & Hm & Hz)];
    destruct (parse_maxAge_nonneg h') as [Hm' | (z' & Hm' & Hz')];
    rewrite Hm, Hm' in *; cbn [Spec.jsnum_le] in Hle; try contradiction;
    unfold HstsChecker.max_age_tier, strict_equals_Z, less_than_Z, jsnum_eqb.
  - destruct (HstsChecker.parse_includeSubDomains h),
      (HstsChecker.parse_includeSubDomains h'); cbn;
      try (specialize (Hsub eq_refl); discriminate Hsub); lia.
  - destruct (z =? 0)%Z eqn:Hzero; [|destruct (z <? 31536000)%Z eqn:Hweak];
      destruct (HstsChecker.parse_includeSubDomains h),
        (HstsChecker.parse_includeSubDomains h'); cbn;
      try (specialize (Hsub eq_refl); discriminate Hsub); lia.
  - destruct (z =? 0)%Z eqn:Hzero; [|destruct (z <? 31536000)%Z eqn:Hweak];
      (destruct (z' =? 0)%Z eqn:Hzero'; [|destruct (z' <? 31536000)%Z eqn:Hweak']);
      destruct (HstsChecker.parse_includeSubDomains h),
        (HstsChecker.parse_includeSubDomains h'); cbn;
      try (specialize (Hsub eq_refl); discriminate Hsub);
      repeat match goal with
             | H : (_ =? _)%Z = true |- _ => apply Z.eqb_eq in H
             | H : (_ =? _)%Z = false |- _ => apply Z.eqb_neq in H
             | H : (_ <? _)%Z = true |- _ => apply Z.ltb_lt in H
             | H : (_ <? _)%Z = false |- _ => apply Z.ltb_ge in H
             end; lia.
Qed.

Lemma hsts_severity_monotone_witness :
  Spec.rank (Spec.hsts_finding "max-age=31536000; includeSubDomains")
              .(HstsChecker.severity)
  <= Spec.rank (Spec.hsts_finding "max-age=600").(HstsChecker.severity).
Proof.
  apply (hsts_severity_monotone
           (Spec.answers (Spec.response_of None (Some "max-age=600")))
           (Spec.answers (Spec.response_of
                            None (Some "max-age=31536000; includeSubDomains")))
           "example.com" "example.com" _ _
           "max-age=600" "max-age=31536000; includeSubDomains"
           eq_refl eq_refl eq_refl eq_refl);
    discriminate.
Defined.

(** X15. For a [maxAge] within the safe integers, [maxAgeDays] counts the
    whole days in it, and the one-year threshold in seconds is the
    365-day threshold in days: the status is ["HSTS Enabled"] exactly
    when [maxAgeDays] is at least 365. *)
Theorem hsts_days_threshold
        (axios_get : string -> completion Response) (domain : string)
        (response : Response) (h : string) (seconds : Z) :
  axios_get (normalize_url domain) = Normal response ->
  strict_transport_security (headers response) = Some h ->
  h <> EmptyString ->
  HstsChecker.parse_maxAge h = Num seconds ->
  (seconds < 2 ^ 53)%Z ->
  let finding := HstsChecker.checkHSTS axios_get domain in
  exists days,
    finding.(HstsChecker.details).(HstsChecker.maxAgeDays) = Some (Num days)
    /\ (86400 * days <= seconds < 86400 * (days + 1))%Z
    /\ (finding.(HstsChecker.status) = "HSTS Enabled" <-> (365 <= days)%Z).
Proof.
  intros Hfetch Hh Hne Hm Hsafe.
  rewrite (checkHSTS_fetched _ _ _ Hfetch), (analyze_present _ _ _ Hh Hne).
  rewrite evaluate_unfold. cbv zeta.
  cbn [HstsChecker.details HstsChecker.maxAgeDays HstsChecker.status].
  rewrite includeSubDomains_rule_cases. unfold Spec.tier.
  assert (Hz : (0 <= seconds)%Z).
  { destruct (parse_maxAge_nonneg h) as [Hinf | (z & Hz & Hpos)]; congruence. }
  rewrite Hm, (floor_div_safe seconds (conj Hz Hsafe)).
  exists (seconds / 86400)%Z. split; [reflexivity|].
  pose proof (Z.div_mod seconds 86400 ltac:(lia)) as Hdiv.
  pose proof (Z.mod_pos_bound seconds 86400 ltac:(lia)) as Hmod.
  split; [lia|].
  unfold HstsChecker.max_age_tier, strict_equals_Z, less_than_Z, jsnum_eqb.
  destruct (seconds =? 0)%Z eqn:Hzero; [|destruct (seconds <? 31536000)%Z eqn:Hweak];
    destruct (HstsChecker.parse_includeSubDomains h); cbn [fst snd];
    repeat match goal with
           | H : (_ =? _)%Z = true |- _ => apply Z.eqb_eq in H
           | H : (_ =? _)%Z = false |- _ => apply Z.eqb_neq in H
           | H : (_ <? _)%Z = true |- _ => apply Z.ltb_lt in H
           | H : (_ <? _)%Z = false |- _ => apply Z.ltb_ge in H
           end;
    (split; [try discriminate; intros _; lia | try reflexivity; intros; lia]).
Qed.

Lemma hsts_days_threshold_witness :
  exists days,
    (Spec.hsts_finding "max-age=31535999; includeSubDomains")
      .(HstsChecker.details).(HstsChecker.maxAgeDays) = Some (Num days)
    /\ (days < 365)%Z.
Proof.
  destruct (hsts_days_threshold
              (Spec.answers (Spec.response_of
                               None (Some "max-age=31535999; includeSubDomains")))
              "example.com" _ "max-age=31535999; includeSubDomains" 31535999
              eq_refl eq_refl ltac:(discriminate) eq_refl eq_refl)
    as (days & Hdays & Hbounds & _).
  exists days. split; [exact Hdays | lia].
Defined.

(** ** Splitting and trimming *)

Section SplitTrim.

Lemma has_char_app (c : ascii) (a b : string) :
  Spec.has_char c (a ++ b) = Spec.has_char c a || Spec.has_char c b.
Proof.
  induction a as [|d a IH]; [reflexivity|]. cbn [append Spec.has_char].
  now rewrite IH, orb_assoc.
Qed.

Lemma split_single (sep : ascii) (s : string) :
  Spec.has_char sep s = false -> split sep s = [s].
Proof.
  induction s as [|c s IH]; intros Hs; [reflexivity|].
  cbn [Spec.has_char] in Hs. apply orb_false_iff in Hs. destruct Hs as [Hc Hs].
  cbn [split]. rewrite Ascii.eqb_sym, Hc, (IH Hs). reflexivity.
Qed.

Lemma split_of_join (sep : ascii) (segments : list string) :
  segments <> [] ->
  Forall (fun segment => Spec.has_char sep segment = false) segments ->
  split sep (Spec.join sep segments) = segments.
Proof.
  induction segments as [|seg segs IH]; intros Hne Hall; [contradiction|].
  inversion Hall as [|? ? Hseg Hsegs]; subst.
  destruct segs as [|seg' segs].
  - cbn [Spec.join]. now apply split_single.
  - change (Spec.join sep (seg :: seg' :: segs))
      with (seg ++ String sep (Spec.join sep (seg' :: segs))).
    rewrite split_app_sep, (split_single sep seg Hseg), IH; [reflexivity | discriminate
                                                              | exact Hsegs].
Qed.

Lemma trimEnd_idempotent (s : string) : trimEnd (trimEnd s) = trimEnd s.
Proof.
  induction s as [|c s IH]; [reflexivity|]. cbn [trimEnd].
  destruct (trimEnd s) as [|t ts] eqn:Ht.
  - destruct (isWhiteSpace c) eqn:Hc; [reflexivity|]. cbn [trimEnd]. now rewrite Hc.
  - cbn [trimEnd] in *. now rewrite IH.
Qed.

Lemma trimEnd_starts (p : ascii -> bool) (s : string) :
  Spec.starts_with_char p s = false ->
  Spec.starts_with_char p (trimEnd s) = false.
Proof.
  destruct s as [|c s]; [reflexivity|]. cbn [Spec.starts_with_char trimEnd].
  intros Hc. destruct (trimEnd s); [destruct (isWhiteSpace c)|]; cbn; auto.
Qed.

Lemma trim_starts (s : string) :
  Spec.starts_with_char isWhiteSpace (trim s) = false.
Proof.
  unfold trim. apply trimEnd_starts.
  destruct (trimStart_spec s) as (blanks & _ & _ & Hstart). exact Hstart.
Qed.

Lemma trim_idempotent (s : string) : trim (trim s) = trim s.
Proof.
  unfold trim at 1. rewrite (trimStart_nonblank _ (trim_starts s)).
  unfold trim. apply trimEnd_idempotent.
Qed.

Lemma trim_has_char (c : ascii) (s : string) :
  Spec.has_char c s = false -> Spec.has_char c (trim s) = false.
Proof.
  intros Hs. unfold trim.
  destruct (trimStart_spec s) as (blanks & Hsplit & _).
  destruct (trimEnd_spec (trimStart s)) as (blanks' & Hsplit' & _).
  rewrite Hsplit, has_char_app in Hs. apply orb_false_iff in Hs.
  destruct Hs as [_ Hs]. rewrite Hsplit', has_char_app in Hs.
  apply orb_false_iff in Hs. tauto.
Qed.

End SplitTrim.

(** X16. Splitting loses nothing and invents nothing: joining the
    segments of a value with the separator gives the value back, no
    segment contains the separator, and a non-empty list of
    separator-free segments is what its join splits into.  The parts of a
    cookie are trimmed: none begins with white space, none contains [;]
    and trimming a part again changes nothing. *)
Theorem split_join_round_trip (sep : ascii) :
  (forall s,
      Spec.join sep (split sep s) = s
      /\ split sep s <> []
      /\ Forall (fun segment => Spec.has_char sep segment = false) (split sep s))
  /\ (forall segments,
         segments <> [] ->
         Forall (fun segment => Spec.has_char sep segment = false) segments ->
         split sep (Spec.join sep segments) = segments)
  /\ (forall cookieStr,
         Forall (fun part =>
                   trim part = part
                   /\ Spec.has_char ";" part = false
                   /\ Spec.starts_with_char isWhiteSpace part = false)
                (CookieChecker.cookieParts cookieStr)).
Proof.
  split; [|split].
  - intros s. split; [apply split_join|].
    split; [apply split_nonempty | apply split_segments].
  - apply split_of_join.
  - intros cookieStr. unfold CookieChecker.cookieParts.
    pose proof (split_segments ";" cookieStr) as Hall.
    induction Hall as [|segment segments Hsegment _ IH]; cbn [map]; constructor.
    + split; [apply trim_idempotent|].
      split; [now apply trim_has_char | apply trim_starts].
    + exact IH.
Qed.

Lemma split_join_round_trip_witness :
  split ";" (Spec.join ";" ["sid=1"; " Secure"; EmptyString; " Path=/"])
  = ["sid=1"; " Secure"; EmptyString; " Path=/"].
Proof.
  destruct (split_join_round_trip ";") as (_ & Hjoin & _).
  apply Hjoin; [discriminate | repeat constructor].
Defined.

(** ** Messages and bounds *)

Section Messages.

Import CookieChecker.

Lemma substring_length_le (n : nat) : forall s,
  String.length (String.substring 0 n s) <= n.
Proof.
  induction n as [|n IH]; intros [|c s]; cbn; try lia.
  specialize (IH s). lia.
Qed.

Lemma raw_of_length (cookieStr : string) :
  String.length (raw_of cookieStr) <= 103.
Proof.
  unfold raw_of, JS.substring.
  rewrite Nat.min_0_l, Nat.max_0_l, Nat.sub_0_r, string_app_length.
  pose proof (substring_length_le (Nat.min 100 (String.length cookieStr)) cookieStr).
  pose proof (Nat.le_min_l 100 (String.length cookieStr)).
  destruct (100 <? String.length cookieStr)%nat; cbn [String.length]; lia.
Qed.

Lemma cookieIssues_shape (cookieStr : string) :
  List.length (cookieIssues cookieStr) <= 3
  /\ NoDup (cookieIssues cookieStr)
  /\ incl (cookieIssues cookieStr)
          ["Missing Secure flag"; "Missing HttpOnly flag";
           "Missing SameSite attribute"].
Proof.
  unfold cookieIssues, push.
  destruct (hasSecure _), (hasHttpOnly _), (hasSameSite _); cbn [negb app];
    (split; [cbn; lia|]); (split; [|intros x Hx; cbn in *; tauto]);
    repeat constructor; cbn; intros H;
    repeat (destruct H as [H | H]; [discriminate H|]); exact H.
Qed.

Lemma In_issue_entries_source cookieHeaders : forall index e,
  In e (Spec.issue_entries index cookieHeaders) ->
  exists cookieStr i,
    In cookieStr cookieHeaders
    /\ Spec.fully_attributed cookieStr = false
    /\ e = {| name := display_name cookieStr i;
              issues := cookieIssues cookieStr;
              raw := raw_of cookieStr |}.
Proof.
  induction cookieHeaders as [|c rest IH]; intros index e He; [destruct He|].
  rewrite issue_entries_cons in He.
  destruct (Spec.fully_attributed c) eqn:F.
  - destruct (IH _ _ He) as (s & i & Hs & Hrest). exists s, i. cbn [In]. auto.
  - destruct He as [<- | He].
    + exists c, index. cbn [In]. auto.
    + destruct (IH _ _ He) as (s & i & Hs & Hrest). exists s, i. cbn [In]. auto.
Qed.

End Messages.

(** X17. Every issue entry names a cookie (the name is not empty), lists
    between one and three issues, all different and all among the three
    missing-attribute messages, and carries a raw value of at most 103
    characters. *)
Theorem issue_entries_are_bounded
        (axios_get : string -> completion Response) (domain : string)
        (response : Response) :
  axios_get (normalize_url domain) = Normal response ->
  Forall (fun e =>
            e.(CookieChecker.name) <> EmptyString
            /\ 1 <= List.length e.(CookieChecker.issues) <= 3
            /\ NoDup e.(CookieChecker.issues)
            /\ incl e.(CookieChecker.issues)
                    ["Missing Secure flag"; "Missing HttpOnly flag";
                     "Missing SameSite attribute"]
            /\ String.length e.(CookieChecker.raw) <= 103)
         (Spec.listed_issues (CookieChecker.checkCookies axios_get domain)).
Proof.
  intros Hfetch.
  rewrite (checkCookies_fetched _ _ _ Hfetch), analyze_unfold. cbv zeta.
  unfold Spec.listed_issues.
  destruct (Spec.set_cookies response) as [|c rest]; [constructor|].
  cbn [CookieChecker.finding_issues]. apply Forall_forall. intros e He.
  destruct (In_issue_entries_source _ _ _ He) as (s & i & _ & Hmissing & ->).
  cbn [CookieChecker.name CookieChecker.issues CookieChecker.raw].
  destruct (cookieIssues_shape s) as (Hlen & Hnodup & Hincl).
  split; [apply display_name_nonempty|].
  split; [split; [|exact Hlen]|].
  - destruct (CookieChecker.cookieIssues s) eqn:E; [|cbn; lia].
    apply cookieIssues_nil_iff in E. congruence.
  - split; [exact Hnodup|]. split; [exact Hincl | apply raw_of_length].
Qed.

Lemma issue_entries_are_bounded_witness :
  let response := Spec.response_of (Some ["id=" ++ JS.zeros 200]) None in
  Forall (fun e => String.length e.(CookieChecker.raw) <= 103)
         (Spec.listed_issues
            (CookieChecker.checkCookies (Spec.answers response) "example.com")).
Proof.
  intros response.
  pose proof (issue_entries_are_bounded (Spec.answers response) "example.com"
                                        response eq_refl) as H.
  apply (Forall_impl _ (P := _) (fun e He => proj2 (proj2 (proj2 (proj2 He)))) H).
Defined.

(** X18. The message of a cookie finding reports the counts of the
    finding.  Without cookies it says so, with status ["No Cookies Set"];
    with cookies and no issue entry it is ["All n cookies are properly
    secured"]; otherwise it is ["Found k cookie(s) with security issues
    out of n total"], where [k] is the number of issue entries (at most
    [n]) and [n] the number of cookies, both in decimal. *)
Theorem cookie_message_reports_counts
        (axios_get : string -> completion Response) (domain : string)
        (response : Response) :
  axios_get (normalize_url domain) = Normal response ->
  (Z.of_nat (List.length (Spec.set_cookies response)) < 2 ^ 32)%Z ->
  let finding := CookieChecker.checkCookies axios_get domain in
  let n := List.length (Spec.set_cookies response) in
  let k := List.length (Spec.listed_issues finding) in
  (n = 0 /\ k = 0
   /\ finding.(CookieChecker.status) = "No Cookies Set"
   /\ finding.(CookieChecker.message) = "No cookies found on this domain")
  \/ (0 < n /\ k = 0
      /\ finding.(CookieChecker.status) = "All Cookies Secure"
      /\ finding.(CookieChecker.message)
         = "All " ++ decimal (Z.of_nat n) ++ " cookies are properly secured")
  \/ (0 < k <= n
      /\ finding.(CookieChecker.status) <> "All Cookies Secure"
      /\ finding.(CookieChecker.message)
         = "Found " ++ decimal (Z.of_nat k)
           ++ " cookie(s) with security issues out of "
           ++ decimal (Z.of_nat n) ++ " total").
Proof.
  intros Hfetch Hsize. cbv zeta.
  rewrite (checkCookies_fetched _ _ _ Hfetch), analyze_unfold. cbv zeta.
  unfold Spec.listed_issues.
  destruct (Spec.set_cookies response) as [|c rest] eqn:Hhs; [left; cbn; auto|].
  rewrite <- Hhs in *.
  cbn [CookieChecker.finding_issues CookieChecker.status CookieChecker.message].
  assert (Hn : 0 < List.length (Spec.set_cookies response))
    by (rewrite Hhs; cbn; lia).
  assert (Hle : List.length (Spec.issue_entries 0 (Spec.set_cookies response))
                <= List.length (Spec.set_cookies response))
    by (rewrite issue_entries_length; apply filter_length_le).
  assert (Hpow : (2 ^ 32 < 2 ^ 53)%Z) by reflexivity.
  rewrite !Number_toString_safe by lia.
  destruct (forallb Spec.fully_attributed (Spec.set_cookies response)) eqn:Hfull;
    cbn [negb].
  - right; left. apply (issue_entries_nil _ 0) in Hfull. rewrite Hfull. cbn. auto.
  - right; right.
    destruct (Spec.issue_entries 0 (Spec.set_cookies response)) eqn:E.
    + apply issue_entries_nil in E. congruence.
    + split; [cbn [List.length] in *; lia|].
      split; [destruct (forallb Spec.lacks_secure _); discriminate | reflexivity].
Qed.

Lemma cookie_message_reports_counts_witness :
  let response := Spec.response_of (Some ["a=1"; "b=2; Secure; HttpOnly; SameSite=Lax"])
                                   None in
  (CookieChecker.checkCookies (Spec.answers response) "example.com")
    .(CookieChecker.message)
  = "Found 1 cookie(s) with security issues out of 2 total".
Proof.
  intros response.
  destruct (cookie_message_reports_counts (Spec.answers response) "example.com"
                                          response eq_refl eq_refl)
    as [(Hn & _) | [(_ & Hk & _) | (_ & _ & Hmessage)]];
    [discriminate Hn | discriminate Hk | exact Hmessage].
Defined.

(** X19. The message of an evaluated policy with a safe-integer [maxAge]
    is either ["HSTS is properly configured (max-age: d days)"], where
    there is no issue and [d] is the day count, at least 365, or
    ["HSTS is enabled but has k issue(s)"] with [k] the number of issues,
    one or two. *)
Theorem hsts_message_reports_counts
        (axios_get : string -> completion Response) (domain : string)
        (response : Response) (h : string) (seconds : Z) :
  axios_get (normalize_url domain) = Normal response ->
  strict_transport_security (headers response) = Some h ->
  h <> EmptyString ->
  HstsChecker.parse_maxAge h = Num seconds ->
  (seconds < 2 ^ 53)%Z ->
  let finding := HstsChecker.checkHSTS axios_get domain in
  let k := List.length (Spec.found_issues finding) in
  (k = 0 /\ (365 <= seconds / 86400)%Z
   /\ finding.(HstsChecker.message)
      = "HSTS is properly configured (max-age: " ++ decimal (seconds / 86400)
        ++ " days)")
  \/ (1 <= k <= 2
      /\ finding.(HstsChecker.message)
         = "HSTS is enabled but has " ++ decimal (Z.of_nat k) ++ " issue(s)").
Proof.
  intros Hfetch Hh Hne Hm Hsafe. cbv zeta.
  rewrite (checkHSTS_fetched _ _ _ Hfetch), (analyze_present _ _ _ Hh Hne).
  rewrite evaluate_unfold. cbv zeta. unfold Spec.found_issues.
  cbn [HstsChecker.message HstsChecker.details HstsChecker.issues].
  rewrite includeSubDomains_rule_cases. unfold Spec.tier.
  assert (Hz : (0 <= seconds)%Z).
  { destruct (parse_maxAge_nonneg h) as [Hinf | (z & Hz & Hpos)]; congruence. }
  rewrite Hm, (floor_div_safe seconds (conj Hz Hsafe)).
  rewrite (Number_toString_safe (seconds / 86400))
    by (apply floor_div_safe_range; split; assumption).
  unfold HstsChecker.max_age_tier, strict_equals_Z, less_than_Z, jsnum_eqb, push.
  destruct (seconds =? 0)%Z eqn:Hzero; [|destruct (seconds <? 31536000)%Z eqn:Hweak];
    destruct (HstsChecker.parse_includeSubDomains h);
    cbn [fst snd app List.length Nat.ltb Nat.leb];
    try (right; split; [lia | reflexivity]).
  left. apply Z.ltb_ge in Hweak. split; [reflexivity|]. split; [|reflexivity].
  apply Z.div_le_lower_bound; lia.
Qed.

Lemma hsts_message_reports_counts_witness :
  (Spec.hsts_finding "max-age=63072000; includeSubDomains; preload")
    .(HstsChecker.message)
  = "HSTS is properly configured (max-age: 730 days)".
Proof.
  destruct (hsts_message_reports_counts
              (Spec.answers (Spec.response_of
                 None (Some "max-age=63072000; includeSubDomains; preload")))
              "example.com" _ "max-age=63072000; includeSubDomains; preload"
              63072000 eq_refl eq_refl ltac:(discriminate) eq_refl eq_refl)
    as [(_ & _ & Hmessage) | ([Hk _] & _)]; [exact Hmessage|].
  exfalso. revert Hk. apply Nat.nle_succ_0.
Defined.

(** ** Sample runs *)

(** The built-ins on values whose JavaScript results are well known. *)
Example round_to_double_ties_to_even :
  round_to_double (2 ^ 53 + 1) = Num (2 ^ 53)
  /\ round_to_double (2 ^ 53 + 3) = Num (2 ^ 53 + 4).
Proof. split; reflexivity. Qed.

Example round_to_double_overflow :
  round_to_double (2 ^ 1024 - 2 ^ 970 - 1) = Num (2 ^ 1024 - 2 ^ 971)
  /\ round_to_double (2 ^ 1024 - 2 ^ 970) = Infinity.
Proof. split; vm_compute; reflexivity. Qed.

Example Number_toString_samples :
  map (fun z => Number_toString (round_to_double z))
      [0; 365; 2 ^ 53; 2 ^ 64; 2 ^ 70; 10 ^ 21; 10 ^ 23]%Z
  = ["0"; "365"; "9007199254740992"; "18446744073709552000";
     "1.1805916207174113e+21"; "1e+21"; "1e+23"].
Proof. vm_compute. reflexivity. Qed.

Example split_trim_sample :
  CookieChecker.cookieParts "sid=abc123; Path=/ ;; HttpOnly "
  = ["sid=abc123"; "Path=/"; EmptyString; "HttpOnly"].
Proof. reflexivity. Qed.

Example cookie_name_sample :
  CookieChecker.display_name "session=abc123; Path=/" 0 = "session"
  /\ CookieChecker.display_name "=abc; Secure" 2 = "Cookie 3".
Proof. split; reflexivity. Qed.

Example normalize_url_sample :
  normalize_url "example.com" = "https://example.com"
  /\ normalize_url "http://example.com" = "http://example.com".
Proof. split; reflexivity. Qed.

Example leftmost_match_sample :
  HstsChecker.maxAgeMatch "max-age=; MAX-AGE=0012x; max-age=7" = Some "0012"
  /\ HstsChecker.parse_maxAge "max-age=; MAX-AGE=0012x; max-age=7" = Num 12.
Proof. split; reflexivity. Qed.

Example hsts_messages :
  (Spec.hsts_finding "max-age=31536000; includeSubDomains").(HstsChecker.message)
  = "HSTS is properly configured (max-age: 365 days)"
  /\ (Spec.hsts_finding "max-age=86400").(HstsChecker.message)
     = "HSTS is enabled but has 2 issue(s)".
Proof. split; reflexivity. Qed.

Example cookie_message :
  (CookieChecker.checkCookies
     (Spec.answers (Spec.response_of (Some ["a=1; Secure"; "b=2"; "c=3"]) None))
     "example.com").(CookieChecker.message)
  = "Found 3 cookie(s) with security issues out of 3 total".
Proof. reflexivity. Qed.
